(** * httpxx: the URL probing pipeline of [main.py]

    A shallow embedding of [URLProcessor] ([normalize_url], [extract_title],
    [process_url], [process_file]) and of [main], with the properties of the
    specification stated over it.

    Python [str] values are lists of Unicode code points; [bytes] are lists
    of bytes.  Exceptions are explicit: a computation that may raise has
    type [M A]. *)

From Stdlib Require Import List NArith ZArith Bool Lia String Ascii.
From Stdlib Require Import DecimalString.
Import ListNotations.

Local Open Scope N_scope.

(* ================================================================== *)
(** ** Python strings *)

Module PyStr.

(** A Python [str]: a sequence of code points. *)
Definition str := list N.

(** An ASCII literal of the source, as code points. *)
Definition lit (s : string) : str :=
  List.map N_of_ascii (list_ascii_of_string s).

Fixpoint eqb (a b : str) : bool :=
  match a, b with
  | [], [] => true
  | x :: a', y :: b' => (x =? y) && eqb a' b'
  | _, _ => false
  end.

(** [str.isspace] on one code point (CPython's [_PyUnicode_IsWhitespace]). *)
Definition isspace (c : N) : bool :=
  ((9 <=? c) && (c <=? 13)) || ((28 <=? c) && (c <=? 32))
  || (c =? 133) || (c =? 160) || (c =? 5760)
  || ((8192 <=? c) && (c <=? 8202))
  || (c =? 8232) || (c =? 8233) || (c =? 8239) || (c =? 8287)
  || (c =? 12288).

Fixpoint lstrip (s : str) : str :=
  match s with
  | [] => []
  | c :: s' => if isspace c then lstrip s' else s
  end.

Definition rstrip (s : str) : str := rev (lstrip (rev s)).

(** [s.strip()] *)
Definition strip (s : str) : str := rstrip (lstrip s).

(** [s.startswith(p)] *)
Fixpoint startswith (p s : str) : bool :=
  match p, s with
  | [], _ => true
  | x :: p', y :: s' => (x =? y) && startswith p' s'
  | _ :: _, [] => false
  end.

(** [p in s] for strings: [p] occurs as a contiguous run of [s]. *)
Fixpoint contains (p s : str) : bool :=
  startswith p s ||
  match s with
  | [] => false
  | _ :: s' => contains p s'
  end.

(** [s.replace(old, new)] for a one-character [old]. *)
Fixpoint replace1 (old : N) (new : str) (s : str) : str :=
  match s with
  | [] => []
  | c :: s' => (if c =? old then new else [c]) ++ replace1 old new s'
  end.

Definition is_upper (c : N) : bool := (65 <=? c) && (c <=? 90).
Definition is_lower (c : N) : bool := (97 <=? c) && (c <=? 122).
Definition is_alpha (c : N) : bool := is_upper c || is_lower c.
Definition is_digit (c : N) : bool := (48 <=? c) && (c <=? 57).

(** [s] begins and ends with a non-blank character (or is empty). *)
Definition trimmed (s : str) : Prop :=
  (forall c s', s = c :: s' -> isspace c = false) /\
  (forall c s', s = s' ++ [c] -> isspace c = false).

Definition blank (s : str) : Prop := Forall (fun c => isspace c = true) s.

End PyStr.
Import PyStr.

(* ================================================================== *)
(** ** URL normalisation ([main.py] 49-63) *)

Definition dot : N := 46.
Definition dquote : N := 34.

(** The class [[a-zA-Z0-9.-]] of the pattern. *)
Definition domain_char (c : N) : bool :=
  is_alpha c || is_digit c || (c =? dot) || (c =? 45).

(** [[a-zA-Z]{2,}] at the head of [s]: two letters are enough for a
    prefix match, further letters are optional. *)
Definition re_tld (s : str) : bool :=
  match s with
  | c1 :: c2 :: _ => is_alpha c1 && is_alpha c2
  | _ => false
  end.

(** [\.[a-zA-Z]{2,}] at the head of [s]. *)
Definition re_dot_tld (s : str) : bool :=
  match s with
  | c :: s' => (c =? dot) && re_tld s'
  | [] => false
  end.

(** [[a-zA-Z0-9.-]+] followed by the rest of the pattern; the run of class
    characters may stop after any of its characters (backtracking). *)
Fixpoint re_domain_run (s : str) : bool :=
  match s with
  | [] => false
  | c :: s' => domain_char c && (re_dot_tld s' || re_domain_run s')
  end.

(** [re.match(r'^[a-zA-Z0-9.-]+\.[a-zA-Z]{2,}', s)] is not [None]. *)
Definition re_match_domain (s : str) : bool := re_domain_run s.

Definition http_scheme : str := lit "http://".
Definition https_scheme : str := lit "https://".

(** [url_line.startswith(('http://', 'https://'))] *)
Definition has_scheme (s : str) : bool :=
  startswith http_scheme s || startswith https_scheme s.

(** [URLProcessor.normalize_url]; [None] is Python's [None]. *)
Definition normalize_url (url_line : str) : option str :=
  let url_line := strip url_line in
  match url_line with
  | [] => None
  | _ :: _ =>
      if negb (has_scheme url_line) then
        if re_match_domain url_line then Some (https_scheme ++ url_line)
        else None
      else Some url_line
  end.

(** The domain shape in the words of the specification: one or more
    characters of the class, a literal dot, at least two letters, anchored
    at the start (anything may follow). *)
Definition domain_shape (s : str) : Prop :=
  exists run tld rest,
    s = run ++ dot :: tld ++ rest /\
    run <> [] /\
    Forall (fun c => domain_char c = true) run /\
    (2 <= List.length tld)%nat /\
    Forall (fun c => is_alpha c = true) tld.

(* ================================================================== *)
(** ** Exceptions, effects and the trace of a run *)

Definition bytes := list Byte.byte.

(** The exception classes the program distinguishes.  All of them derive
    from [Exception]; the first three are the [requests] family rooted at
    [requests.exceptions.RequestException], where [ConnectionError] stands
    for the class and its subclasses ([ConnectTimeout], [SSLError],
    [ProxyError]) and [RequestException] for the rest of the family.
    [KeyboardInterrupt] and [SystemExit], which no clause of the program
    catches, end the whole run and are not errors of a computation. *)
Inductive exn_class :=
| RetryError
| ConnectionError
| RequestException
| UnicodeDecodeError
| Exception.

(** A raised exception: its class and [str(e)]. *)
Record exn := Exn { exn_cls : exn_class; exn_msg : str }.

Definition isinstance_RequestException (e : exn) : bool :=
  match exn_cls e with
  | RetryError | ConnectionError | RequestException => true
  | UnicodeDecodeError | Exception => false
  end.

Definition isinstance_UnicodeDecodeError (e : exn) : bool :=
  match exn_cls e with
  | UnicodeDecodeError => true
  | _ => false
  end.

Definition isinstance_Exception (e : exn) : bool := true.

(** [requests.Response], as far as the program reads it: [status_code],
    [headers.get('content-type')] and [content]. *)
Record Response := {
  resp_status_code : Z;
  resp_content_type : option str;
  resp_content : bytes
}.

(** The [status_code] entry of a result: the numeric status or one of the
    two failure markers. *)
Inductive status_value :=
| StatusInt (n : Z)
| StatusStr (s : str).

(** The dict returned by [process_url]. *)
Record ResultRecord := {
  url : str;
  status_code : status_value;
  title : str;
  success : bool
}.

(** What [print] is called with; each constructor stands for one f-string
    of the source. *)
Inductive console_msg :=
| MsgFileMissing (path : str)              (* 错误: 文件 '{file_path}' 不存在 *)
| MsgUnreadable (path : str) (why : str)   (* 错误: 无法读取文件 ... *)
| MsgInvalidLine (i : N) (text : str)      (* 警告: 第{i}行URL格式无效: ... *)
| MsgNoValidUrl                            (* 错误: 文件中没有有效的URL *)
| MsgFound (n : nat)                       (* 找到 {n} 个有效URL，开始处理... *)
| MsgRule                                  (* "-" * 80 *)
| MsgProcessing (line_num : N) (u : str)   (* 处理第{line_num}行: {url} *)
| MsgStatus (s : status_value)             (*   状态码: {status_display} *)
| MsgTitle (t : str)                       (*   标题: {title_display} *)
| MsgOutputFailed (path : str)             (* 警告: 无法创建输出文件 ... *)
| MsgSaved (path : str)                    (* 结果已保存到: {output_file} *)
| MsgDone (ok total : nat).                (* 处理完成! 成功: {ok}/{total} *)

(** Observable actions of a run, oldest first. *)
Inductive event :=
| EvGet (u : str)                   (* self.session.get(url, ...) *)
| EvExtractTitle (html : bytes)     (* self.extract_title(html) *)
| EvPrint (m : console_msg)
| EvWrite (data : str)              (* output_fh.write(data) *)
| EvClose                           (* output_fh.close() *)
| EvSleep.                          (* time.sleep(self.delay) *)

Definition trace := list event.

(** A computation that may append to the trace and either returns a value
    or raises. *)
Definition M (A : Type) : Type := trace -> trace * (exn + A).

Definition ret {A} (a : A) : M A := fun t => (t, inr a).

Definition raise {A} (e : exn) : M A := fun t => (t, inl e).

Definition bind {A B} (m : M A) (k : A -> M B) : M B :=
  fun t =>
    match m t with
    | (t', inr a) => k a t'
    | (t', inl e) => (t', inl e)
    end.

Definition emit (ev : event) : M unit := fun t => (t ++ [ev], inr tt).

Definition lift {A} (r : exn + A) : M A := fun t => (t, r).

Declare Scope py_scope.
Delimit Scope py_scope with py.
Notation "x <- m ;; k" := (bind m (fun x => k))
  (at level 61, m at next level, right associativity) : py_scope.
Notation "m ;;; k" := (bind m (fun _ => k))
  (at level 61, right associativity) : py_scope.
Local Open Scope py_scope.

(** One [except C as e: h] clause. *)
Definition handler (A : Type) : Type := ((exn -> bool) * (exn -> M A))%type.

Fixpoint dispatch {A} (hs : list (handler A)) (e : exn) : M A :=
  match hs with
  | [] => raise e
  | (isinstance, h) :: hs' => if isinstance e then h e else dispatch hs' e
  end.

(** [try: body except ...]: the first clause whose class matches runs; an
    exception no clause matches keeps propagating. *)
Definition try_ {A} (body : M A) (hs : list (handler A)) : M A :=
  fun t =>
    match body t with
    | (t', inr a) => (t', inr a)
    | (t', inl e) => dispatch hs e t'
    end.

Definition print (m : console_msg) : M unit := emit (EvPrint m).

(** The value a computation returns from a given trace, if it returns. *)
Definition returned {A} (m : M A) (t : trace) : option A :=
  match snd (m t) with
  | inr a => Some a
  | inl _ => None
  end.

(** The events a computation adds to the trace [t]. *)
Definition emitted {A} (m : M A) (t : trace) : trace :=
  skipn (List.length t) (fst (m t)).

(** [m] returns, from every trace, a value that satisfies [P]: it never
    raises. *)
Definition returns {A} (m : M A) (P : A -> Prop) : Prop :=
  forall t, exists t' a, m t = (t', inr a) /\ P a.

(* ================================================================== *)
(** ** The parse tree of BeautifulSoup *)

(** A node of the tree built by [BeautifulSoup(html, 'html.parser')]:
    plain text, a string of another kind ([Comment], [Doctype], the
    contents of script and style, ...), or an element. *)
#[warnings="-register-all"]
Inductive PageElement :=
| NavigableString (s : str)
| SpecialString (s : str)
| Tag (name : str) (contents : list PageElement).

(** [e] followed by everything below it, in document order. *)
Fixpoint self_and_descendants (e : PageElement) : list PageElement :=
  e :: match e with
       | Tag _ cs => flat_map self_and_descendants cs
       | _ => []
       end.

(** [e.descendants] *)
Definition descendants (e : PageElement) : list PageElement :=
  match e with
  | Tag _ cs => flat_map self_and_descendants cs
  | _ => []
  end.

Definition is_tag_named (name : str) (e : PageElement) : bool :=
  match e with
  | Tag n _ => PyStr.eqb n name
  | _ => false
  end.

(** [soup.find(name)]: the first element of that name among the
    descendants, or [None]. *)
Definition find (name : str) (soup : PageElement) : option PageElement :=
  List.find (is_tag_named name) (descendants soup).

(** [e] is the first element called [name] below [soup], in document
    order. *)
Definition first_named (name : str) (soup e : PageElement) : Prop :=
  exists before after,
    descendants soup = before ++ e :: after /\
    is_tag_named name e = true /\
    Forall (fun x => is_tag_named name x = false) before.

(** No element below [soup] is called [name]. *)
Definition none_named (name : str) (soup : PageElement) : Prop :=
  Forall (fun x => is_tag_named name x = false) (descendants soup).

Definition plain_text (e : PageElement) : str :=
  match e with
  | NavigableString s => s
  | _ => []
  end.

(** [tag.get_text()]: the plain strings below the tag, joined. *)
Definition get_text (e : PageElement) : str :=
  flat_map plain_text (descendants e).

(** The tree of [<html><head><title>text</title></head></html>]. *)
Definition page_with_title (text : str) : PageElement :=
  Tag (lit "[document]")
    [Tag (lit "html")
       [Tag (lit "head") [Tag (lit "title") [NavigableString text]]]].

(* ================================================================== *)
(** ** Literals of the source *)

(** "无标题" *)
Definition NO_TITLE : str := [26080; 26631; 39064].
(** "标题提取失败: " *)
Definition TITLE_FAILED : str :=
  [26631; 39064; 25552; 21462; 22833; 36133; 58; 32].
(** "非HTML内容: " *)
Definition NON_HTML : str :=
  [38750; 72; 84; 77; 76; 20869; 23481; 58; 32].
(** "错误: " *)
Definition ERROR_PREFIX : str := [38169; 35823; 58; 32].
(** "请求失败" *)
Definition REQUEST_FAILED : str := [35831; 27714; 22833; 36133].
(** "处理失败" *)
Definition PROCESS_FAILED : str := [22788; 29702; 22833; 36133].
(** "URL,状态码,标题\n" *)
Definition CSV_HEADER : str :=
  [85; 82; 76; 44; 29366; 24577; 30721; 44; 26631; 39064; 10].

(** [str(n)] for an [int]. *)
Definition str_of_int (n : Z) : str := lit (NilZero.string_of_int (Z.to_int n)).

(** How a [status_code] entry is formatted inside an f-string. *)
Definition format_status (s : status_value) : str :=
  match s with
  | StatusInt n => str_of_int n
  | StatusStr m => m
  end.

(* ================================================================== *)
(** ** Lower-casing *)

(** [chr(c).lower()] for a code point below 256. *)
Definition lower_latin1 (c : N) : N :=
  if is_upper c then c + 32
  else if (192 <=? c) && (c <=? 222) && negb (c =? 215) then c + 32
  else c.

Definition is_latin1 (s : str) : bool := forallb (fun c => c <? 256) s.

(* ================================================================== *)
(** ** URLProcessor *)

(** The instance state set by [__init__]: [timeout], [delay] and the retry
    total the session's adapter was mounted with.  Of [delay], a float,
    two facts are kept: whether [delay > 0] holds, and whether the value
    is one [time.sleep] refuses (too large for a timestamp: it then
    raises [OverflowError]). *)
Record URLProcessor := {
  timeout : Z;
  retries : Z;
  delay_positive : bool;
  delay_overflows : bool
}.

Section Processor.

(** The libraries the program calls:
    - [BeautifulSoup html] is [BeautifulSoup(html, 'html.parser')], the
      root of the parse tree, or the exception the parser raised;
    - [session_get retries n u] is what the [n]-th call of
      [self.session.get(u, ...)] of the run does, on a session whose
      adapter retries [retries] times: it returns a response or raises;
    - [unicode_lower s] is [s.lower()] for a string with a code point
      above 255. *)
Variable BeautifulSoup : bytes -> exn + PageElement.
Variable session_get : Z -> nat -> str -> exn + Response.
Variable unicode_lower : str -> str.

(** [s.lower()] *)
Definition lower (s : str) : str :=
  if is_latin1 s then List.map lower_latin1 s else unicode_lower s.

(** [URLProcessor.extract_title] ([main.py] 65-74). *)
Definition extract_title (html_content : bytes) : M str :=
  emit (EvExtractTitle html_content) ;;;
  try_
    (soup <- lift (BeautifulSoup html_content) ;;
     match find (lit "title") soup with
     | Some title_tag => ret (strip (get_text title_tag))
     | None => ret NO_TITLE
     end)
    [(isinstance_Exception, fun e => ret (TITLE_FAILED ++ exn_msg e))].

(** The string [extract_title] answers with, as a function of what the
    parser does. *)
Definition title_of (html_content : bytes) : str :=
  match BeautifulSoup html_content with
  | inr soup =>
      match find (lit "title") soup with
      | Some title_tag => strip (get_text title_tag)
      | None => NO_TITLE
      end
  | inl e => TITLE_FAILED ++ exn_msg e
  end.

Definition count_gets (t : trace) : nat :=
  List.length (filter (fun ev => match ev with EvGet _ => true | _ => false end) t).

(** [self.session.get(url, timeout=self.timeout, allow_redirects=True,
    verify=False)] *)
Definition get (self : URLProcessor) (u : str) : M Response :=
  fun t => (t ++ [EvGet u], session_get (retries self) (count_gets t) u).

(** [response.headers.get('content-type', '').lower()] *)
Definition content_type_of (response : Response) : str :=
  lower (match resp_content_type response with
         | Some v => v
         | None => []
         end).

(** [URLProcessor.process_url] ([main.py] 76-109). *)
Definition process_url (self : URLProcessor) (u : str) : M ResultRecord :=
  try_
    (response <- get self u ;;
     let status := resp_status_code response in
     let content_type := content_type_of response in
     title <- (if contains (lit "text/html") content_type
               then extract_title (resp_content response)
               else ret (NON_HTML ++ content_type)) ;;
     ret {| url := u;
            status_code := StatusInt status;
            title := title;
            success := true |})
    [(isinstance_RequestException,
      fun e => ret {| url := u;
                      status_code := StatusStr REQUEST_FAILED;
                      title := ERROR_PREFIX ++ exn_msg e;
                      success := false |});
     (isinstance_Exception,
      fun e => ret {| url := u;
                      status_code := StatusStr PROCESS_FAILED;
                      title := ERROR_PREFIX ++ exn_msg e;
                      success := false |})].

(** The record built on a response. *)
Definition record_of_response (u : str) (response : Response) : ResultRecord :=
  let content_type := content_type_of response in
  {| url := u;
     status_code := StatusInt (resp_status_code response);
     title := if contains (lit "text/html") content_type
              then title_of (resp_content response)
              else NON_HTML ++ content_type;
     success := true |}.

(** The record built on an exception. *)
Definition record_of_exn (u : str) (e : exn) : ResultRecord :=
  {| url := u;
     status_code := StatusStr (if isinstance_RequestException e
                               then REQUEST_FAILED else PROCESS_FAILED);
     title := ERROR_PREFIX ++ exn_msg e;
     success := false |}.

(** The files of the run, standard output included: [os.path.exists],
    [open(path, 'r', encoding=...)] followed by [readlines()],
    [open(path, 'w')], the [k]-th [output_fh.write(data)] to succeed or
    fail, [output_fh.close()], and [print] of a title.  The console is
    taken to show the program's own text and the text of the input file;
    a title is made of text from the network or from an exception, and
    printing it may raise (an encoding error). *)
Inductive encoding := utf_8 | gbk.

Record FileSystem := {
  fs_exists : str -> bool;
  fs_readlines : encoding -> str -> exn + list str;
  fs_open_w : str -> exn + unit;
  fs_write : nat -> str -> exn + unit;
  fs_close : exn + unit;
  console_title : str -> exn + unit
}.

Variable fs : FileSystem.

Definition comma : N := 44.

(** The row written for one result: the URL, the status and the title,
    each between double quotes, separated by commas and ended by a line
    feed; only the title has its double quotes doubled
    ([result['title'].replace] at [main.py] 172). *)
Definition csv_row (u : str) (status_display : status_value) (title : str) : str :=
  let title_csv := replace1 dquote [dquote; dquote] title in
  [dquote] ++ u ++ [dquote; comma; dquote] ++ format_status status_display
  ++ [dquote; comma; dquote] ++ title_csv ++ [dquote; 10].

(** Python's truth value of [normalize_url]'s result. *)
Definition truthy (o : option str) : bool :=
  match o with
  | Some (_ :: _) => true
  | _ => false
  end.

(** The two [open]/[readlines] attempts of [process_file]; [None] when
    the function gives up and returns [False]. *)
Definition read_urls (file_path : str) : M (option (list str)) :=
  try_
    (urls <- lift (fs_readlines fs utf_8 file_path) ;; ret (Some urls))
    [(isinstance_UnicodeDecodeError, fun _ =>
       try_
         (urls <- lift (fs_readlines fs gbk file_path) ;; ret (Some urls))
         [(isinstance_Exception, fun e =>
             print (MsgUnreadable file_path (exn_msg e)) ;;; ret None)])].

(** The file decodes, as UTF-8 or else as GBK, into the lines [urls]. *)
Definition file_lines (file_path : str) (urls : list str) : Prop :=
  fs_readlines fs utf_8 file_path = inr urls \/
  exists e,
    fs_readlines fs utf_8 file_path = inl e /\
    isinstance_UnicodeDecodeError e = true /\
    fs_readlines fs gbk file_path = inr urls.

(** The loop over [enumerate(urls, 1)] that fills [valid_urls]. *)
Fixpoint collect_valid (i : N) (urls : list str) : M (list (N * str)) :=
  match urls with
  | [] => ret []
  | url_line :: rest =>
      match normalize_url url_line with
      | Some normalized_url =>
          if truthy (Some normalized_url) then
            valid <- collect_valid (i + 1) rest ;;
            ret ((i, normalized_url) :: valid)
          else
            print (MsgInvalidLine i (strip url_line)) ;;;
            collect_valid (i + 1) rest
      | None =>
          print (MsgInvalidLine i (strip url_line)) ;;;
          collect_valid (i + 1) rest
      end
  end.

Definition count_writes (t : trace) : nat :=
  List.length
    (filter (fun ev => match ev with EvWrite _ => true | _ => false end) t).

(** [output_fh.write(data)]: recorded when it succeeds, raised when it
    fails. *)
Definition write (data : str) : M unit :=
  fun t =>
    match fs_write fs (count_writes t) data with
    | inr _ => (t ++ [EvWrite data], inr tt)
    | inl e => (t, inl e)
    end.

(** [output_fh.close()] *)
Definition close : M unit :=
  fun t =>
    match fs_close fs with
    | inr _ => (t ++ [EvClose], inr tt)
    | inl e => (t, inl e)
    end.

(** [print] of the title line. *)
Definition print_title (t : str) : M unit :=
  fun tr =>
    match console_title fs t with
    | inr _ => (tr ++ [EvPrint (MsgTitle t)], inr tt)
    | inl e => (tr, inl e)
    end.

(** What [time.sleep] raises on a value it refuses. *)
Definition SLEEP_OVERFLOW : exn :=
  Exn Exception (lit "timestamp too large to convert to C _PyTime_t").

(** [if self.delay > 0: time.sleep(self.delay)] *)
Definition pause (self : URLProcessor) : M unit :=
  if delay_positive self then
    if delay_overflows self then raise SLEEP_OVERFLOW else emit EvSleep
  else ret tt.

(** Opening the output file; the result tells whether [output_fh] is
    set.  [output_fh] is assigned as soon as [open] returns, so a header
    write that fails prints the warning and leaves it set. *)
Definition open_output (output_file : option str) : M bool :=
  match output_file with
  | Some (c :: p) =>
      try_
        (lift (fs_open_w fs (c :: p)) ;;;
         try_
           (write CSV_HEADER ;;; ret true)
           [(isinstance_Exception, fun e =>
               print (MsgOutputFailed (c :: p)) ;;; ret true)])
        [(isinstance_Exception, fun e =>
            print (MsgOutputFailed (c :: p)) ;;; ret false)]
  | _ => ret false
  end.

(** [title[:100] + "..." if len(title) > 100 else title] *)
Definition title_display (t : str) : str :=
  if (100 <? List.length t)%nat then firstn 100 t ++ lit "..." else t.

(** The loop over [valid_urls]. *)
Fixpoint process_all (self : URLProcessor) (output_fh : bool)
    (valid_urls : list (N * str)) (results : list ResultRecord)
    : M (list ResultRecord) :=
  match valid_urls with
  | [] => ret results
  | (line_num, u) :: rest =>
      print (MsgProcessing line_num u) ;;;
      result <- process_url self u ;;
      let results := results ++ [result] in
      let status_display := status_code result in
      print (MsgStatus status_display) ;;;
      print_title (title_display (title result)) ;;;
      print MsgRule ;;;
      (if output_fh
       then write (csv_row u status_display (title result))
       else ret tt) ;;;
      pause self ;;;
      process_all self output_fh rest results
  end.

(** [URLProcessor.process_file] ([main.py] 111-187). *)
Definition process_file (self : URLProcessor) (file_path : str)
    (output_file : option str) : M bool :=
  if negb (fs_exists fs file_path) then
    print (MsgFileMissing file_path) ;;; ret false
  else
    read <- read_urls file_path ;;
    match read with
    | None => ret false
    | Some urls =>
        valid_urls <- collect_valid 1 urls ;;
        match valid_urls with
        | [] => print MsgNoValidUrl ;;; ret false
        | _ :: _ =>
            print (MsgFound (List.length valid_urls)) ;;;
            print MsgRule ;;;
            output_fh <- open_output output_file ;;
            results <- process_all self output_fh valid_urls [] ;;
            (if output_fh
             then close ;;;
                  print (MsgSaved (match output_file with
                                   | Some p => p
                                   | None => []
                                   end))
             else ret tt) ;;;
            let successful := List.length (filter success results) in
            print (MsgDone successful (List.length results)) ;;;
            ret true
        end
    end.

(** The parsed command line. *)
Record Args := {
  arg_file : str;
  arg_output : option str;
  arg_timeout : Z;
  arg_retries : Z;
  arg_delay_positive : bool;
  arg_delay_overflows : bool
}.

(** [main] ([main.py] 189-215); the value returned is the argument of
    [sys.exit], 0 when the function runs to its end. *)
Definition main (args : Args) : M Z :=
  if negb (fs_exists fs (arg_file args)) then
    print (MsgFileMissing (arg_file args)) ;;; ret 1%Z
  else
    let processor := {| timeout := arg_timeout args;
                        retries := arg_retries args;
                        delay_positive := arg_delay_positive args;
                        delay_overflows := arg_delay_overflows args |} in
    ok <- process_file processor (arg_file args) (arg_output args) ;;
    if negb ok then ret 1%Z else ret 0%Z.

(** The exit status of the process started on [main]: an uncaught
    exception ends it with status 1. *)
Definition exit_status (args : Args) : Z :=
  match snd (main args []) with
  | inr code => code
  | inl _ => 1%Z
  end.

End Processor.

(* ================================================================== *)
(** ** The retrying adapter ([main.py] 33-42)

    [Retry(total=retries, status_forcelist=[429, 500, 502, 503, 504],
    allowed_methods=[HEAD, GET, OPTIONS], backoff_factor=1)] mounted
    through [HTTPAdapter(max_retries=...)]: the loop urllib3 runs for one
    GET request and the exception [requests] raises when the loop gives
    up.  [raise_on_status] is left at its default, [True].  Following a
    redirect starts the loop again for the next hop and is not part of the
    model, nor are the back-off sleeps. *)

(** What one attempt of a request meets: a response (and whether it
    carries a [Retry-After] header); a response whose status line and
    headers arrive but whose body cannot be read; or a connection or read
    error before any response. *)
Inductive attempt :=
| Responded (response : Response) (retry_after : bool)
| RespondedBroken (response : Response) (retry_after : bool) (reason : str)
| Failed (reason : str).

Definition status_forcelist : list Z := [429; 500; 502; 503; 504]%Z.

(** [Retry.RETRY_AFTER_STATUS_CODES] *)
Definition RETRY_AFTER_STATUS_CODES : list Z := [413; 429; 503]%Z.

Definition mem_status (s : Z) (l : list Z) : bool := existsb (Z.eqb s) l.

(** [Retry.is_retry] for a GET: the status is in the force list, or the
    response asks to retry later and [total] is not 0. *)
Definition is_retry (total : Z) (status : Z) (has_retry_after : bool) : bool :=
  mem_status status status_forcelist
  || (negb (total =? 0)%Z && has_retry_after
      && mem_status status RETRY_AFTER_STATUS_CODES).

(** [Retry.is_exhausted] when [total] is the only counter set. *)
Definition is_exhausted (total : Z) : bool := (total <? 0)%Z.

(** What an attempt lets the loop see: the response, whether it carries
    [Retry-After] and, when its body cannot be read, why; or the error
    that came instead of a response. *)
Definition heard (a : attempt) : (Response * bool * option str) + str :=
  match a with
  | Responded response retry_after => inl (response, retry_after, None)
  | RespondedBroken response retry_after reason =>
      inl (response, retry_after, Some reason)
  | Failed reason => inr reason
  end.

(** The response the loop returns, with the reason its body cannot be
    read, if any: the loop itself does not read the body. *)
Definition raw_response : Type := (Response * option str)%type.

(** The cause urllib3 records for a status of the force list. *)
Definition too_many_responses (status : Z) : str :=
  lit "too many " ++ str_of_int status ++ lit " error responses".

Section Adapter.

(** [max_retry_error u cause] is [str] of the [MaxRetryError] raised for
    the URL [u]; [server k] is what the [k]-th attempt meets. *)
Variable max_retry_error : str -> str -> str.
Variable server : nat -> attempt.

(** What is raised when the attempt [a] was the last one allowed:
    [RetryError] after a response, [ConnectionError] after an error. *)
Definition gave_up (u : str) (a : attempt) : exn :=
  match heard a with
  | inl (response, _, _) =>
      Exn RetryError
        (max_retry_error u (too_many_responses (resp_status_code response)))
  | inr reason => Exn ConnectionError (max_retry_error u reason)
  end.

(** [HTTPConnectionPool.urlopen] with [Retry.increment]; [total] is the
    counter left, [k] the number of attempts made.  A response that is to
    be retried is drained and dropped, whatever its body.  [None] only
    when [fuel] runs out. *)
Fixpoint urlopen (fuel : nat) (u : str) (total : Z) (k : nat)
    : option (exn + raw_response) :=
  match fuel with
  | O => None
  | S fuel' =>
      match heard (server k) with
      | inl (response, retry_after, body_error) =>
          if is_retry total (resp_status_code response) retry_after then
            let total' := (total - 1)%Z in
            if is_exhausted total' then Some (inl (gave_up u (server k)))
            else urlopen fuel' u total' (S k)
          else Some (inr (response, body_error))
      | inr reason =>
          let total' := (total - 1)%Z in
          if is_exhausted total' then Some (inl (gave_up u (server k)))
          else urlopen fuel' u total' (S k)
      end
  end.

(** [HTTPAdapter.send]: the loop started with the configured total.  The
    loop ends by its counter; the fuel given here is enough, and more
    fuel changes nothing. *)
Definition adapter_send (total : Z) (u : str) : option (exn + raw_response) :=
  urlopen (S (Z.to_nat total)) u total 0.

End Adapter.

(** [Session.send] reads the body of the response the adapter returned
    ([r.content], as [stream] is false).  A failure there is raised as an
    exception of the requests family, after the loop: nothing is retried
    and the response is not returned. *)
Definition read_body (raw : raw_response) : exn + Response :=
  match snd raw with
  | None => inr (fst raw)
  | Some reason => inl (Exn RequestException reason)
  end.

(** [session.get] over a network: [network n u k] is what the [k]-th
    attempt of the [n]-th request of the run meets.  The default is never
    taken: [adapter_send] always gives an outcome. *)
Definition session_get_on (max_retry_error : str -> str -> str)
    (network : nat -> str -> nat -> attempt)
    (retries : Z) (n : nat) (u : str) : exn + Response :=
  match adapter_send max_retry_error (network n u) retries u with
  | Some (inr raw) => read_body raw
  | Some (inl e) => inl e
  | None => inl (Exn Exception [])
  end.

(* ================================================================== *)
(** ** Reading a CSV row back (RFC 4180) *)

Module Csv.

(** The text of a quoted field, after its opening quote: two quotes in a
    row stand for one, a single quote closes the field.  Returns the
    field and what follows the closing quote. *)
Fixpoint quoted (s : str) : option (str * str) :=
  match s with
  | [] => None
  | c :: s' =>
      if c =? dquote then
        match s' with
        | c' :: s'' =>
            if c' =? dquote then
              match quoted s'' with
              | Some (f, rest) => Some (dquote :: f, rest)
              | None => None
              end
            else Some ([], s')
        | [] => Some ([], [])
        end
      else
        match quoted s' with
        | Some (f, rest) => Some (c :: f, rest)
        | None => None
        end
  end.

(** An unquoted field: up to the next comma or line break; a quote inside
    it is an error. *)
Fixpoint unquoted (s : str) : option (str * str) :=
  match s with
  | [] => Some ([], [])
  | c :: s' =>
      if (c =? comma) || (c =? 10) || (c =? 13) then Some ([], s)
      else if c =? dquote then None
      else
        match unquoted s' with
        | Some (f, rest) => Some (c :: f, rest)
        | None => None
        end
  end.

Definition field (s : str) : option (str * str) :=
  match s with
  | c :: s' => if c =? dquote then quoted s' else unquoted s
  | [] => unquoted s
  end.

(** The end of the row: nothing, LF or CR LF. *)
Definition at_end (s : str) : bool :=
  match s with
  | [] => true
  | [c] => c =? 10
  | [c; d] => (c =? 13) && (d =? 10)
  | _ => false
  end.

Fixpoint fields (fuel : nat) (s : str) : option (list str) :=
  match fuel with
  | O => None
  | S fuel' =>
      match field s with
      | None => None
      | Some (f, rest) =>
          if at_end rest then Some [f]
          else
            match rest with
            | c :: rest' =>
                if c =? comma then
                  match fields fuel' rest' with
                  | Some fs => Some (f :: fs)
                  | None => None
                  end
                else None
            | [] => None
            end
      end
  end.

(** The fields of a row, or [None] when the row is not well formed. *)
Definition parse_row (s : str) : option (list str) :=
  fields (S (List.length s)) s.

End Csv.

(* ================================================================== *)
(** ** Sample data *)

Definition sample_response (status : Z) (content_type : string) : Response :=
  {| resp_status_code := status;
     resp_content_type := Some (lit content_type);
     resp_content := [] |}.

Definition sample_processor : URLProcessor :=
  {| timeout := 10; retries := 3; delay_positive := true;
     delay_overflows := false |}.

(** A server that answers 503 twice and 200 from then on. *)
Definition flaky_server (k : nat) : attempt :=
  match k with
  | O | S O => Responded (sample_response 503 "text/plain") false
  | _ => Responded (sample_response 200 "text/plain") false
  end.

(** A server that answers 503 to every attempt. *)
Definition overloaded_server (k : nat) : attempt :=
  Responded (sample_response 503 "text/plain") false.

Definition sample_fs (lines : list str) : FileSystem :=
  {| fs_exists := fun _ => true;
     fs_readlines := fun _ _ => inr lines;
     fs_open_w := fun _ => inr tt;
     fs_write := fun _ _ => inr tt;
     fs_close := inr tt;
     console_title := fun _ => inr tt |}.



(** A rendering of [MaxRetryError] for the samples. *)
Definition sample_max_retry_error (u cause : str) : str :=
  lit "Max retries exceeded with url: " ++ u
  ++ lit " (Caused by " ++ cause ++ lit ")".

Definition sample_args : Args :=
  {| arg_file := lit "urls.txt";
     arg_output := None;
     arg_timeout := 10;
     arg_retries := 3;
     arg_delay_positive := true;
     arg_delay_overflows := false |}.

(** A network on which every request fails. *)
Definition unreachable (retries : Z) (n : nat) (u : str) : exn + Response :=
  inl (Exn ConnectionError (lit "connection refused")).


(** The statuses [process_url] writes: a number or one of the two
    markers. *)
Definition written_status (s : status_value) : Prop :=
  match s with
  | StatusInt _ => True
  | StatusStr m => m = REQUEST_FAILED \/ m = PROCESS_FAILED
  end.

(** [s] is empty or begins with a character that is not a double quote. *)
Definition no_quote_ahead (s : str) : Prop :=
  match s with
  | [] => True
  | c :: _ => (c =? dquote) = false
  end.

(* ================================================================== *)
(** ** What a run did *)

(** The URLs requested, the data written to the output file and the
    messages printed, in order, and the number of pauses. *)
Definition gets (t : trace) : list str :=
  flat_map (fun ev => match ev with EvGet u => [u] | _ => [] end) t.

Definition writes (t : trace) : list str :=
  flat_map (fun ev => match ev with EvWrite d => [d] | _ => [] end) t.

Definition prints (t : trace) : list console_msg :=
  flat_map (fun ev => match ev with EvPrint m => [m] | _ => [] end) t.

Definition sleeps (t : trace) : nat :=
  List.length
    (filter (fun ev => match ev with EvSleep => true | _ => false end) t).

(** [m] returns from every trace, and the events [evs] it adds and the
    value [a] it returns satisfy [P]. *)
Definition runs {A} (m : M A) (P : trace -> A -> Prop) : Prop :=
  forall t, exists evs a, m t = (t ++ evs, inr a) /\ P evs a.

(** [enumerate(urls, i)] *)
Fixpoint numbered (i : N) (urls : list str) : list (N * str) :=
  match urls with
  | [] => []
  | l :: rest => (i, l) :: numbered (i + 1) rest
  end.

(** The entry of [valid_urls] a numbered line gives, if any. *)
Definition kept (il : N * str) : list (N * str) :=
  match normalize_url (snd il) with
  | Some u => [(fst il, u)]
  | None => []
  end.

(** The warning a numbered line gives, if any. *)
Definition rejected (il : N * str) : list console_msg :=
  match normalize_url (snd il) with
  | Some _ => []
  | None => [MsgInvalidLine (fst il) (strip (snd il))]
  end.

Definition kept_lines (urls : list str) : list (N * str) :=
  flat_map kept (numbered 1 urls).

Definition rejected_lines (urls : list str) : list console_msg :=
  flat_map rejected (numbered 1 urls).

(** The row written for a record. *)
Definition row_of (r : ResultRecord) : str :=
  csv_row (url r) (status_code r) (title r).

(** The four lines printed for a URL and its record. *)
Definition report_block (iu : N * str) (r : ResultRecord) : list console_msg :=
  [MsgProcessing (fst iu) (snd iu);
   MsgStatus (status_code r);
   MsgTitle (title_display (title r));
   MsgRule].

(** An output file was asked for and could be opened. *)
Definition output_opened (fs : FileSystem) (output_file : option str) : bool :=
  match output_file with
  | Some (c :: p) =>
      match fs_open_w fs (c :: p) with
      | inr _ => true
      | inl _ => false
      end
  | _ => false
  end.

(** What is printed around the loop for the output file: a warning before
    it when the file cannot be opened, its path after it when it was. *)
Definition output_warning (fs : FileSystem) (output_file : option str)
    : list console_msg :=
  match output_file with
  | Some (c :: p) =>
      match fs_open_w fs (c :: p) with
      | inr _ => []
      | inl _ => [MsgOutputFailed (c :: p)]
      end
  | _ => []
  end.

Definition output_saved (fs : FileSystem) (output_file : option str)
    : list console_msg :=
  match output_file with
  | Some (c :: p) =>
      match fs_open_w fs (c :: p) with
      | inr _ => [MsgSaved (c :: p)]
      | inl _ => []
      end
  | _ => []
  end.

(** The adapter makes another attempt after [a] when [total] is the
    counter left. *)
Definition retried (total : Z) (a : attempt) : bool :=
  match heard a with
  | inr _ => true
  | inl (response, retry_after, _) =>
      is_retry total (resp_status_code response) retry_after
  end.



(** The console shows every title, the output file takes every write and
    closes, and [time.sleep] takes the delay. *)
Definition io_reliable (fs : FileSystem) (self : URLProcessor) : Prop :=
  (forall s, console_title fs s = inr tt) /\
  (forall k d, fs_write fs k d = inr tt) /\
  fs_close fs = inr tt /\
  (delay_positive self = true -> delay_overflows self = false).

(** What [m] does from any trace: it returns a value that satisfies [P]
    or raises an exception that satisfies [Q]. *)
Definition outcome {A} (m : M A) (P : A -> Prop) (Q : exn -> Prop) : Prop :=
  forall t,
    match snd (m t) with
    | inr a => P a
    | inl e => Q e
    end.


(** A file system whose only file cannot be opened for reading. *)
Definition locked_fs : FileSystem :=
  {| fs_exists := fun _ => true;
     fs_readlines := fun _ _ => inl (Exn Exception (lit "Permission denied"));
     fs_open_w := fun _ => inr tt;
     fs_write := fun _ _ => inr tt;
     fs_close := inr tt;
     console_title := fun _ => inr tt |}.


(* ================================================================== *)
(** * Properties *)

(** ** Stripping *)

Lemma lstrip_split (s : str) :
  exists ws, s = ws ++ lstrip s /\ blank ws.
Proof.
  induction s as [|c s IH]; simpl.
  - exists []. split; [reflexivity | constructor].
  - destruct (isspace c) eqn:Hc.
    + destruct IH as [ws [Hs Hb]].
      exists (c :: ws). split.
      * simpl. now rewrite <- Hs.
      * now constructor.
    + exists []. split; [reflexivity | constructor].
Qed.

Lemma lstrip_head (s : str) c s' :
  lstrip s = c :: s' -> isspace c = false.
Proof.
  induction s as [|d s IH]; simpl; [discriminate|].
  destruct (isspace d) eqn:Hd; [exact IH|].
  intros H. injection H as -> _. exact Hd.
Qed.

Lemma lstrip_blank (s : str) : blank s -> lstrip s = [].
Proof.
  induction 1 as [|c s Hc _ IH]; simpl; [reflexivity|].
  now rewrite Hc.
Qed.

Lemma blank_rev (s : str) : blank s -> blank (rev s).
Proof. apply Forall_rev. Qed.

Lemma rstrip_split (s : str) :
  exists ws, s = rstrip s ++ ws /\ blank ws.
Proof.
  unfold rstrip.
  destruct (lstrip_split (rev s)) as [ws [Hs Hb]].
  exists (rev ws). split; [|now apply blank_rev].
  rewrite <- rev_app_distr, <- Hs. now rewrite rev_involutive.
Qed.

Lemma rstrip_last (s : str) c s' :
  rstrip s = s' ++ [c] -> isspace c = false.
Proof.
  unfold rstrip. intros H.
  apply (f_equal (@rev N)) in H.
  rewrite rev_involutive, rev_app_distr in H. simpl in H.
  now apply lstrip_head in H.
Qed.

Lemma strip_trimmed (s : str) : trimmed (strip s).
Proof.
  unfold strip. split.
  - intros c s' H.
    destruct (rstrip_split (lstrip s)) as [ws [Hs _]].
    rewrite H in Hs. simpl in Hs.
    now apply lstrip_head in Hs.
  - intros c s' H. now apply rstrip_last in H.
Qed.

Lemma strip_split (s : str) :
  exists ws1 ws2,
    s = ws1 ++ strip s ++ ws2 /\ blank ws1 /\ blank ws2.
Proof.
  destruct (lstrip_split s) as [ws1 [H1 B1]].
  destruct (rstrip_split (lstrip s)) as [ws2 [H2 B2]].
  exists ws1, ws2. repeat split; trivial.
  unfold strip. now rewrite <- H2.
Qed.

Lemma strip_blank (s : str) : blank s -> strip s = [].
Proof.
  intros H. unfold strip. now rewrite (lstrip_blank s H).
Qed.

Lemma strip_nil_blank (s : str) : strip s = [] -> blank s.
Proof.
  intros H. destruct (strip_split s) as [ws1 [ws2 [Hs [B1 B2]]]].
  rewrite H in Hs. simpl in Hs. rewrite Hs.
  apply Forall_app. now split.
Qed.

(** A trimmed string between two blank ones is what [strip] returns. *)
Lemma lstrip_app_blank (ws t : str) :
  blank ws -> (forall c s', t = c :: s' -> isspace c = false) ->
  lstrip (ws ++ t) = t.
Proof.
  intros Hb Ht. induction Hb as [|c ws Hc _ IH]; simpl.
  - destruct t as [|c t']; [reflexivity|].
    simpl. now rewrite (Ht c t' eq_refl).
  - now rewrite Hc.
Qed.

Lemma strip_unique (ws1 t ws2 : str) :
  blank ws1 -> blank ws2 -> trimmed t ->
  strip (ws1 ++ t ++ ws2) = t.
Proof.
  intros B1 B2 [Hh Hl]. unfold strip, rstrip.
  destruct t as [|c t'].
  - simpl. rewrite (lstrip_blank (ws1 ++ ws2)).
    + reflexivity.
    + apply Forall_app. now split.
  - rewrite (lstrip_app_blank ws1 ((c :: t') ++ ws2) B1).
    + rewrite rev_app_distr.
      rewrite (lstrip_app_blank (rev ws2) (rev (c :: t'))).
      * apply rev_involutive.
      * now apply blank_rev.
      * intros d s' Hd.
        apply (f_equal (@rev N)) in Hd.
        rewrite rev_involutive in Hd. simpl in Hd.
        now apply (Hl d (rev s')).
    + intros d s' Hd. simpl in Hd. injection Hd as -> _.
      now apply (Hh d t').
Qed.

(** ** Prefixes and occurrences *)

Lemma startswith_spec (p s : str) :
  startswith p s = true <-> exists post, s = p ++ post.
Proof.
  revert s. induction p as [|x p IH]; intros s; simpl.
  - split; [intros _; now exists s | reflexivity].
  - destruct s as [|y s].
    + split; [discriminate | intros [post H]; discriminate].
    + rewrite andb_true_iff, N.eqb_eq, IH. split.
      * intros [-> [post ->]]. now exists post.
      * intros [post H]. injection H as -> ->. split; eauto.
Qed.

Lemma contains_spec (p s : str) :
  contains p s = true <-> exists pre post, s = pre ++ p ++ post.
Proof.
  induction s as [|y s IH]; simpl.
  - rewrite orb_false_r, startswith_spec. split.
    + intros [post H]. now exists [], post.
    + intros (pre & post & H). destruct pre; [now exists post|discriminate].
  - rewrite orb_true_iff, startswith_spec, IH. split.
    + intros [[post H]|(pre & post & H)].
      * now exists [], post.
      * exists (y :: pre), post. simpl. now rewrite H.
    + intros (pre & post & H). destruct pre as [|z pre].
      * left. now exists post.
      * right. injection H as _ H. now exists pre, post.
Qed.

(** ** The domain pattern *)

Lemma re_domain_run_shape (s : str) :
  re_domain_run s = true -> domain_shape s.
Proof.
  induction s as [|c s IH]; simpl; [discriminate|].
  intros H. apply andb_true_iff in H as [Hc H].
  apply orb_true_iff in H as [H|H].
  - destruct s as [|d s]; [discriminate|]. simpl in H.
    apply andb_true_iff in H as [Hd H].
    apply N.eqb_eq in Hd. subst d.
    destruct s as [|c1 [|c2 rest]]; try discriminate.
    simpl in H. apply andb_true_iff in H as [H1 H2].
    exists [c], [c1; c2], rest. repeat split.
    + discriminate.
    + now constructor.
    + simpl. lia.
    + now repeat constructor.
  - destruct (IH H) as (run & tld & rest & Hs & Hne & Hrun & Hlen & Htld).
    exists (c :: run), tld, rest. repeat split; trivial.
    + simpl. now rewrite Hs.
    + discriminate.
    + now constructor.
Qed.

Lemma shape_re_domain_run (s : str) :
  domain_shape s -> re_domain_run s = true.
Proof.
  intros (run & tld & rest & Hs & Hne & Hrun & Hlen & Htld). subst s.
  induction Hrun as [|c run Hc Hrun IH]; [congruence|].
  simpl. rewrite Hc. simpl.
  destruct run as [|d run].
  - cbn [app re_dot_tld]. rewrite N.eqb_refl. cbn [andb orb].
    destruct tld as [|c1 [|c2 tld]]; simpl in Hlen; try lia.
    inversion Htld as [|? ? H1 Htld']. inversion Htld' as [|? ? H2 _].
    cbn [app re_tld]. now rewrite H1, H2.
  - rewrite IH; [apply orb_true_r | discriminate].
Qed.

Lemma re_match_domain_spec (s : str) :
  re_match_domain s = true <-> domain_shape s.
Proof.
  split; [apply re_domain_run_shape | apply shape_re_domain_run].
Qed.

(** ** URL normalisation *)

Lemma normalize_url_unfold (line : str) :
  normalize_url line =
  if has_scheme (strip line) then Some (strip line)
  else if re_match_domain (strip line)
       then Some (https_scheme ++ strip line)
       else None.
Proof.
  unfold normalize_url.
  destruct (strip line) as [|c s]; [reflexivity|].
  now destruct (has_scheme (c :: s)).
Qed.

(** C4: [normalize_url] trims the line ([strip line] is the line without
    its blank ends); a blank line gives nothing; a trimmed line that starts
    with http:// or https:// is returned as it is; otherwise https:// is
    prepended when the trimmed line has the domain shape, and nothing is
    returned when it has not.  The four examples of the specification
    follow. *)
Theorem normalize_url_spec (line : str) :
  (exists ws1 ws2,
      line = ws1 ++ strip line ++ ws2 /\ blank ws1 /\ blank ws2 /\
      trimmed (strip line)) /\
  (blank line <-> strip line = []) /\
  (blank line -> normalize_url line = None) /\
  (has_scheme (strip line) = true ->
   normalize_url line = Some (strip line)) /\
  (has_scheme (strip line) = false -> domain_shape (strip line) ->
   normalize_url line = Some (https_scheme ++ strip line)) /\
  (has_scheme (strip line) = false -> ~ domain_shape (strip line) ->
   normalize_url line = None) /\
  normalize_url (lit "example.com") = Some (lit "https://example.com") /\
  normalize_url (lit "http://x.io") = Some (lit "http://x.io") /\
  normalize_url (lit "not a url!!") = None /\
  normalize_url (lit "") = None.
Proof.
  split; [|split; [|split; [|split; [|split; [|split]]]]].
  - destruct (strip_split line) as [ws1 [ws2 [Hs [B1 B2]]]].
    exists ws1, ws2. repeat split; trivial; apply strip_trimmed.
  - split; [apply strip_blank | apply strip_nil_blank].
  - intros Hb. unfold normalize_url. now rewrite (strip_blank line Hb).
  - intros Hs. rewrite normalize_url_unfold. now rewrite Hs.
  - intros Hs Hd. rewrite normalize_url_unfold, Hs.
    apply re_match_domain_spec in Hd. now rewrite Hd.
  - intros Hs Hd. rewrite normalize_url_unfold, Hs.
    destruct (re_match_domain (strip line)) eqn:Hm; [|reflexivity].
    apply re_match_domain_spec in Hm. contradiction.
  - repeat split; reflexivity.
Qed.

Lemma normalize_url_spec_witness :
  normalize_url ([32] ++ lit "example.com" ++ [10]) =
  Some (lit "https://example.com").
Proof.
  apply (proj1 (proj2 (proj2 (proj2 (proj2
          (normalize_url_spec ([32] ++ lit "example.com" ++ [10]))))))).
  - reflexivity.
  - exists (lit "example"), (lit "com"), []. repeat split.
    + discriminate.
    + repeat constructor.
    + simpl. lia.
    + repeat constructor.
Defined.

(** C8: a line whose trimmed form [t] starts with http:// or https:// is
    answered with exactly [t]: the blanks around it are dropped and nothing
    else is checked, so that the bare scheme https:// is accepted as it
    is. *)
Theorem normalize_url_scheme_verbatim (ws1 t ws2 : str) :
  blank ws1 -> blank ws2 -> trimmed t -> has_scheme t = true ->
  normalize_url (ws1 ++ t ++ ws2) = Some t /\
  normalize_url (lit "https://") = Some (lit "https://").
Proof.
  intros B1 B2 Ht Hs. split; [|reflexivity].
  rewrite normalize_url_unfold.
  rewrite (strip_unique ws1 t ws2 B1 B2 Ht). now rewrite Hs.
Qed.

Lemma normalize_url_scheme_verbatim_witness :
  normalize_url ([32; 9] ++ lit "http://x.io/a b" ++ [32; 13; 10]) =
  Some (lit "http://x.io/a b").
Proof.
  apply (normalize_url_scheme_verbatim [32; 9] (lit "http://x.io/a b")
           [32; 13; 10]).
  - repeat constructor.
  - repeat constructor.
  - split; intros c s' H.
    + injection H as <- _. reflexivity.
    + change (lit "http://x.io/a b") with (lit "http://x.io/a " ++ [98]) in H.
      apply app_inj_tail in H. destruct H as [_ <-]. reflexivity.
  - reflexivity.
Defined.

(** ** Computations that return *)


Lemma returns_bind {A B} (m : M A) (k : A -> M B) (P : A -> Prop)
    (Q : B -> Prop) :
  returns m P -> (forall a, P a -> returns (k a) Q) -> returns (bind m k) Q.
Proof.
  intros Hm Hk t. unfold bind.
  destruct (Hm t) as (t1 & a & E & Pa). rewrite E.
  apply (Hk a Pa).
Qed.

Lemma returns_emit (ev : event) : returns (emit ev) (fun _ => True).
Proof. intros t. exists (t ++ [ev]), tt. now split. Qed.

Lemma returns_print (m : console_msg) : returns (print m) (fun _ => True).
Proof. apply returns_emit. Qed.

Lemma returns_weaken {A} (m : M A) (P Q : A -> Prop) :
  returns m P -> (forall a, P a -> Q a) -> returns m Q.
Proof.
  intros Hm HPQ t. destruct (Hm t) as (t1 & a & E & Pa).
  exists t1, a. split; auto.
Qed.

Lemma skipn_app_length {A} (l1 l2 : list A) :
  skipn (List.length l1) (l1 ++ l2) = l2.
Proof. induction l1; simpl; auto. Qed.

(** ** The first element of a name *)

Lemma find_first_named (name : str) (soup e : PageElement) :
  find name soup = Some e <-> first_named name soup e.
Proof.
  unfold find, first_named.
  generalize (descendants soup) as l.
  induction l as [|x l IH]; simpl.
  - split; [discriminate|].
    intros (before & after & H & _). now destruct before.
  - destruct (is_tag_named name x) eqn:Hx.
    + split.
      * intros H. injection H as <-.
        exists [], l. repeat split; trivial.
      * intros (before & after & H & He & Hb).
        destruct before as [|y before]; simpl in H.
        -- now injection H as ->.
        -- injection H as -> _. inversion Hb; congruence.
    + rewrite IH. split.
      * intros (before & after & H & He & Hb).
        exists (x :: before), after. repeat split; trivial.
        -- simpl. now rewrite H.
        -- now constructor.
      * intros (before & after & H & He & Hb).
        destruct before as [|y before]; simpl in H.
        -- injection H as -> _. congruence.
        -- injection H as -> H. inversion Hb; subst.
           now exists before, after.
Qed.

Lemma find_none_named (name : str) (soup : PageElement) :
  find name soup = None <-> none_named name soup.
Proof.
  unfold find, none_named.
  generalize (descendants soup) as l.
  induction l as [|x l IH]; simpl.
  - split; [constructor | reflexivity].
  - destruct (is_tag_named name x) eqn:Hx.
    + split; [discriminate|]. intros H. inversion H; congruence.
    + rewrite IH. split.
      * intros H. now constructor.
      * intros H. now inversion H.
Qed.

(** ** Title extraction *)

Section ExtractTitle.

Variable BeautifulSoup : bytes -> exn + PageElement.

Lemma extract_title_run (html : bytes) (t : trace) :
  extract_title BeautifulSoup html t =
  (t ++ [EvExtractTitle html], inr (title_of BeautifulSoup html)).
Proof.
  unfold extract_title, title_of, bind, emit, try_, lift. simpl.
  destruct (BeautifulSoup html) as [e|soup]; simpl; [reflexivity|].
  now destruct (find (lit "title") soup).
Qed.

Lemma extract_title_returned (html : bytes) (t : trace) :
  returned (extract_title BeautifulSoup html) t =
  Some (title_of BeautifulSoup html).
Proof. unfold returned. now rewrite extract_title_run. Qed.

(** C5: [extract_title] answers with the trimmed text of the first title
    element in document order; with the placeholder when the tree has no
    title element; and, when the parser raises, with a string that embeds
    the message of the exception, which is not propagated. *)
Theorem extract_title_spec (html : bytes) (t : trace) :
  (forall soup title_tag,
      BeautifulSoup html = inr soup ->
      first_named (lit "title") soup title_tag ->
      returned (extract_title BeautifulSoup html) t =
      Some (strip (get_text title_tag)) /\
      trimmed (strip (get_text title_tag))) /\
  (forall soup,
      BeautifulSoup html = inr soup ->
      none_named (lit "title") soup ->
      returned (extract_title BeautifulSoup html) t = Some NO_TITLE) /\
  (forall e,
      BeautifulSoup html = inl e ->
      returned (extract_title BeautifulSoup html) t =
      Some (TITLE_FAILED ++ exn_msg e)) /\
  returns (extract_title BeautifulSoup html) (fun _ => True).
Proof.
  rewrite extract_title_returned. unfold title_of.
  repeat split.
  - apply find_first_named in H0. now rewrite H, H0.
  - intros c s' E. apply (proj1 (strip_trimmed (get_text title_tag)) c s' E).
  - intros c s' E. apply (proj2 (strip_trimmed (get_text title_tag)) c s' E).
  - intros soup H Hn. apply find_none_named in Hn. now rewrite H, Hn.
  - intros e H. now rewrite H.
  - intros t0. rewrite extract_title_run. eauto.
Qed.

(** C9, as the code has it: the placeholder branch is taken only when
    the tree has no title element, but the placeholder text is not
    reserved to it: [extract_title] answers with the placeholder exactly
    when the page parses and either has no title element or has a first
    title whose trimmed text is the placeholder itself.  When the first
    title element has a blank text, the answer is the empty string, not
    the placeholder. *)
Theorem extract_title_placeholder (html : bytes) (t : trace) :
  (returned (extract_title BeautifulSoup html) t = Some NO_TITLE <->
   exists soup,
     BeautifulSoup html = inr soup /\
     (none_named (lit "title") soup \/
      exists title_tag,
        first_named (lit "title") soup title_tag /\
        strip (get_text title_tag) = NO_TITLE)) /\
  (forall soup title_tag,
      BeautifulSoup html = inr soup ->
      first_named (lit "title") soup title_tag ->
      blank (get_text title_tag) ->
      returned (extract_title BeautifulSoup html) t = Some [] /\
      returned (extract_title BeautifulSoup html) t <> Some NO_TITLE).
Proof.
  rewrite extract_title_returned. unfold title_of. split.
  - destruct (BeautifulSoup html) as [e|soup].
    + split.
      * intros H. injection H as H. discriminate.
      * intros (soup & H & _). discriminate.
    + destruct (find (lit "title") soup) as [tag|] eqn:Hf.
      * split.
        -- intros H. injection H as H. exists soup. split; [reflexivity|].
           right. exists tag. split; [now apply find_first_named | exact H].
        -- intros (soup' & Hs & [Hn|(tag' & Ht & He)]);
             injection Hs as <-.
           ++ apply find_none_named in Hn. congruence.
           ++ apply find_first_named in Ht.
              rewrite Hf in Ht. injection Ht as <-. now rewrite He.
      * split; [|reflexivity].
        intros _. exists soup. split; [reflexivity|].
        left. now apply find_none_named.
  - intros soup title_tag Hp Hf Hb.
    apply find_first_named in Hf. rewrite Hp, Hf.
    rewrite (strip_blank _ Hb). split; [reflexivity | discriminate].
Qed.

End ExtractTitle.

Lemma extract_title_spec_witness :
  returned (extract_title (fun _ => inr (page_with_title (lit " Hi "))) [])
    [] = Some (lit "Hi").
Proof.
  apply (proj1 (extract_title_spec
                  (fun _ => inr (page_with_title (lit " Hi "))) [] [])
           (page_with_title (lit " Hi "))
           (Tag (lit "title") [NavigableString (lit " Hi ")])).
  - reflexivity.
  - exists [Tag (lit "html")
              [Tag (lit "head") [Tag (lit "title") [NavigableString (lit " Hi ")]]];
            Tag (lit "head") [Tag (lit "title") [NavigableString (lit " Hi ")]]],
           [NavigableString (lit " Hi ")].
    repeat split; repeat constructor.
Defined.

Lemma extract_title_placeholder_witness :
  returned (extract_title (fun _ => inr (page_with_title [32; 10])) [])
    [] = Some [].
Proof.
  apply (proj2 (extract_title_placeholder
                  (fun _ => inr (page_with_title [32; 10])) [] [])
           (page_with_title [32; 10])
           (Tag (lit "title") [NavigableString [32; 10]])).
  - reflexivity.
  - exists [Tag (lit "html")
              [Tag (lit "head") [Tag (lit "title") [NavigableString [32; 10]]]];
            Tag (lit "head") [Tag (lit "title") [NavigableString [32; 10]]]],
           [NavigableString [32; 10]].
    repeat split; repeat constructor.
  - repeat constructor.
Defined.

(** A page whose title is the placeholder text: a title element exists
    and the placeholder is returned all the same. *)
Lemma extract_title_placeholder_counterexample :
  find (lit "title") (page_with_title NO_TITLE) =
  Some (Tag (lit "title") [NavigableString NO_TITLE]) /\
  returned (extract_title (fun _ => inr (page_with_title NO_TITLE)) [])
    [] = Some NO_TITLE.
Proof. split; reflexivity. Qed.

(** ** Processing one URL *)

Section ProcessUrl.

Variable BeautifulSoup : bytes -> exn + PageElement.
Variable session_get : Z -> nat -> str -> exn + Response.
Variable unicode_lower : str -> str.

Local Abbreviation process_url' :=
  (process_url BeautifulSoup session_get unicode_lower).
Local Abbreviation content_type_of' := (content_type_of unicode_lower).
Local Abbreviation record_of_response' :=
  (record_of_response BeautifulSoup unicode_lower).

Lemma process_url_run (self : URLProcessor) (u : str) (t : trace) :
  process_url' self u t =
  match session_get (retries self) (count_gets t) u with
  | inr response =>
      ((t ++ [EvGet u]) ++
       (if contains (lit "text/html") (content_type_of' response)
        then [EvExtractTitle (resp_content response)] else []),
       inr (record_of_response' u response))
  | inl e => (t ++ [EvGet u], inr (record_of_exn u e))
  end.
Proof.
  unfold process_url, try_, bind, get, record_of_response, record_of_exn.
  destruct (session_get (retries self) (count_gets t) u) as [e|response].
  - simpl. destruct e as [[] msg]; reflexivity.
  - destruct (contains (lit "text/html") (content_type_of unicode_lower response)).
    + rewrite extract_title_run. reflexivity.
    + unfold ret. now rewrite app_nil_r.
Qed.


(** For a header value within Latin-1, the lower-cased value contains [p]
    exactly when some run of the value is [p] up to case. *)
Lemma contains_lower_latin1 (p v : str) :
  is_latin1 v = true ->
  (contains p (lower unicode_lower v) = true <->
   exists pre w post, v = pre ++ w ++ post /\ List.map lower_latin1 w = p).
Proof.
  intros Hv. unfold lower. rewrite Hv, contains_spec. split.
  - intros (pre & post & H).
    apply map_eq_app in H as (pre' & rest & -> & <- & H).
    apply map_eq_app in H as (w & post' & -> & <- & _).
    now exists pre', w, post'.
  - intros (pre & w & post & -> & <-).
    exists (List.map lower_latin1 pre), (List.map lower_latin1 post).
    now rewrite !map_app.
Qed.

(** C6: on a response, [extract_title] is called, on the body, exactly
    when the lower-cased content-type contains text/html, that is, for a
    header value within Latin-1, when some run of the value is text/html
    up to case; it is then what gives the title.  Otherwise it is not
    called at all and the title is the non-HTML prefix followed by the
    lower-cased content-type. *)
Theorem process_url_content_type_gate (self : URLProcessor) (u : str)
    (t : trace) (response : Response) :
  session_get (retries self) (count_gets t) u = inr response ->
  let content_type := content_type_of' response in
  let calls := emitted (process_url' self u) t in
  exists r,
    returned (process_url' self u) t = Some r /\
    (In (EvExtractTitle (resp_content response)) calls <->
     contains (lit "text/html") content_type = true) /\
    (forall html, In (EvExtractTitle html) calls ->
                  html = resp_content response) /\
    (contains (lit "text/html") content_type = true ->
     title r = title_of BeautifulSoup (resp_content response)) /\
    (contains (lit "text/html") content_type = false ->
     title r = NON_HTML ++ content_type /\
     forall html, ~ In (EvExtractTitle html) calls) /\
    (forall v,
        resp_content_type response = Some v -> is_latin1 v = true ->
        (contains (lit "text/html") content_type = true <->
         exists pre w post,
           v = pre ++ w ++ post /\
           List.map lower_latin1 w = lit "text/html")) /\
    contains (lit "text/html")
      (lower unicode_lower (lit "Text/HTML; charset=UTF-8")) = true.
Proof.
  intros Hget content_type calls.
  assert (Hci : forall v,
             resp_content_type response = Some v -> is_latin1 v = true ->
             (contains (lit "text/html") content_type = true <->
              exists pre w post,
                v = pre ++ w ++ post /\
                List.map lower_latin1 w = lit "text/html")).
  { intros v Hv Hl. unfold content_type, content_type_of. rewrite Hv.
    now apply contains_lower_latin1. }
  unfold calls, emitted, returned. rewrite process_url_run, Hget.
  exists (record_of_response' u response). cbn [fst snd].
  rewrite <- app_assoc, skipn_app_length.
  unfold record_of_response. cbn [title].
  fold content_type.
  assert (Hgate : forall v (Hv : resp_content_type response = Some v)
                    (Hl : is_latin1 v = true) b,
             contains (lit "text/html") content_type = b ->
             (b = true <->
              exists pre w post,
                v = pre ++ w ++ post /\
                List.map lower_latin1 w = lit "text/html")).
  { intros v Hv Hl b <-. now apply Hci. }
  clear Hci.
  destruct (contains (lit "text/html") content_type) eqn:Hc; simpl.
  - repeat split; trivial; try discriminate.
    + intros _. right. now left.
    + intros html [H|[H|[]]]; [discriminate | now injection H].
    + intros _. now apply (Hgate v H H0 true).
  - repeat split; trivial; try discriminate.
    + intros [E|[]]. discriminate.
    + intros html [E|[]]. discriminate.
    + intros html [E|[]]. discriminate.
    + intros H1. now apply (Hgate v H H0 false).
Qed.

End ProcessUrl.

Lemma process_url_content_type_gate_witness :
  exists r,
    returned (process_url (fun _ => inr (page_with_title (lit "Hi")))
                (fun _ _ _ => inr (sample_response 200 "Text/HTML"))
                (fun s => s) sample_processor (lit "https://example.com"))
      [] = Some r /\
    title r = lit "Hi".
Proof.
  destruct (process_url_content_type_gate
              (fun _ => inr (page_with_title (lit "Hi")))
              (fun _ _ _ => inr (sample_response 200 "Text/HTML"))
              (fun s => s) sample_processor (lit "https://example.com") []
              (sample_response 200 "Text/HTML") eq_refl)
    as (r & Hr & _ & _ & Ht & _).
  exists r. split; [exact Hr|].
  rewrite (Ht eq_refl). reflexivity.
Defined.

(** ** The batch *)

Lemma normalize_url_truthy (line : str) (s : str) :
  normalize_url line = Some s -> truthy (Some s) = true.
Proof.
  unfold normalize_url.
  destruct (strip line) as [|c l]; [discriminate|].
  destruct (has_scheme (c :: l)); cbn [negb].
  - intros H. now injection H as <-.
  - destruct (re_match_domain (c :: l)); [|discriminate].
    intros H. now injection H as <-.
Qed.

(** ** Reading the written rows back *)

Lemma quoted_pair (s : str) :
  Csv.quoted (dquote :: dquote :: s) =
  match Csv.quoted s with
  | Some (f, rest) => Some (dquote :: f, rest)
  | None => None
  end.
Proof. reflexivity. Qed.

Lemma quoted_close (c : N) (s : str) :
  (c =? dquote) = false -> Csv.quoted (dquote :: c :: s) = Some ([], c :: s).
Proof. intros H. cbn [Csv.quoted]. rewrite N.eqb_refl. now rewrite H. Qed.

Lemma quoted_other (c : N) (s : str) :
  (c =? dquote) = false ->
  Csv.quoted (c :: s) =
  match Csv.quoted s with
  | Some (f, rest) => Some (c :: f, rest)
  | None => None
  end.
Proof. intros H. cbn [Csv.quoted]. now rewrite H. Qed.

Lemma quoted_closing (rest : str) :
  no_quote_ahead rest -> Csv.quoted (dquote :: rest) = Some ([], rest).
Proof.
  destruct rest as [|c rest]; [reflexivity|].
  intros H. now apply quoted_close.
Qed.

(** A field written with its quotes doubled and then closed is read back
    as it was. *)
Lemma quoted_escaped (t rest : str) :
  no_quote_ahead rest ->
  Csv.quoted (replace1 dquote [dquote; dquote] t ++ dquote :: rest) =
  Some (t, rest).
Proof.
  intros Hr. induction t as [|c t IH].
  - now apply quoted_closing.
  - cbn [replace1]. destruct (c =? dquote) eqn:Hc.
    + apply N.eqb_eq in Hc. subst c.
      cbn [app]. now rewrite quoted_pair, IH.
    + cbn [app]. now rewrite (quoted_other c _ Hc), IH.
Qed.

Lemma replace1_no_quote (s : str) :
  ~ In dquote s -> replace1 dquote [dquote; dquote] s = s.
Proof.
  induction s as [|c s IH]; [reflexivity|].
  intros H. cbn [replace1].
  destruct (c =? dquote) eqn:Hc.
  - apply N.eqb_eq in Hc. subst c. exfalso. apply H. now left.
  - cbn [app]. rewrite IH; [reflexivity|].
    intros Hin. apply H. now right.
Qed.

Lemma quoted_plain (s rest : str) :
  ~ In dquote s -> no_quote_ahead rest ->
  Csv.quoted (s ++ dquote :: rest) = Some (s, rest).
Proof.
  intros Hs Hr. rewrite <- (replace1_no_quote s Hs) at 1.
  now apply quoted_escaped.
Qed.

(** Reading a field written verbatim never gives the field back once a
    quote of its own is met: [d] is what the reader is already late by. *)
Lemma quoted_verbatim_differs (n : nat) :
  forall (x d tail f r : str),
    (List.length x <= n)%nat ->
    no_quote_ahead tail ->
    d <> [] \/ In dquote x ->
    Csv.quoted (x ++ dquote :: comma :: dquote :: tail) = Some (f, r) ->
    f <> d ++ x.
Proof.
  induction n as [|n IH]; intros x d tail f r Hlen Ht Hd Hq Hf.
  - destruct x; [|simpl in Hlen; lia].
    cbn [app] in Hq. rewrite quoted_close in Hq by reflexivity.
    injection Hq as <- _. rewrite app_nil_r in Hf.
    destruct Hd as [Hd|[]]. now apply Hd.
  - destruct x as [|c x].
    + cbn [app] in Hq. rewrite quoted_close in Hq by reflexivity.
      injection Hq as <- _. rewrite app_nil_r in Hf.
      destruct Hd as [Hd|[]]. now apply Hd.
    + destruct (c =? dquote) eqn:Hc.
      * apply N.eqb_eq in Hc. subst c.
        destruct x as [|c' x].
        -- cbn [app] in Hq. rewrite quoted_pair in Hq.
           rewrite (quoted_other comma) in Hq by reflexivity.
           rewrite (quoted_closing tail Ht) in Hq.
           injection Hq as <- _.
           apply (f_equal (@rev N)) in Hf.
           rewrite rev_app_distr in Hf. discriminate.
        -- destruct (c' =? dquote) eqn:Hc'.
           ++ apply N.eqb_eq in Hc'. subst c'.
              cbn [app] in Hq. rewrite quoted_pair in Hq.
              destruct (Csv.quoted (x ++ dquote :: comma :: dquote :: tail))
                as [[f1 r1]|] eqn:Hq1; [|discriminate].
              injection Hq as <- <-.
              simpl in Hlen.
              destruct d as [|c0 d].
              ** cbn [app] in Hf. injection Hf as Hf.
                 apply (IH x [dquote] tail f1 r1); trivial; [lia|].
                 left. discriminate.
              ** cbn [app] in Hf. injection Hf as _ Hf.
                 apply (IH x (d ++ [dquote; dquote]) tail f1 r1);
                   trivial; [lia | | now rewrite <- app_assoc].
                 left. now destruct d.
           ++ cbn [app] in Hq. rewrite (quoted_close c' _ Hc') in Hq.
              injection Hq as <- _. now destruct d.
      * cbn [app] in Hq. rewrite (quoted_other c _ Hc) in Hq.
        destruct (Csv.quoted (x ++ dquote :: comma :: dquote :: tail))
          as [[f1 r1]|] eqn:Hq1; [|discriminate].
        injection Hq as <- <-.
        simpl in Hlen.
        destruct d as [|c0 d].
        -- cbn [app] in Hf. injection Hf as Hf.
           apply (IH x [] tail f1 r1); trivial; [lia|].
           right. destruct Hd as [Hd|[Hd|Hd]]; trivial.
           ++ now contradiction Hd.
           ++ subst c. discriminate.
        -- cbn [app] in Hf. injection Hf as _ Hf.
           apply (IH x (d ++ [c]) tail f1 r1);
             trivial; [lia | | now rewrite <- app_assoc].
           left. now destruct d.
Qed.

Lemma lit_uint_no_quote (d : Decimal.uint) :
  ~ In dquote (lit (NilEmpty.string_of_uint d)).
Proof.
  unfold dquote.
  induction d; simpl; [tauto|..];
    (intros [H|H]; [discriminate | auto]).
Qed.

Lemma str_of_int_no_quote (n : Z) :
  ~ In dquote (str_of_int n) /\ str_of_int n <> [].
Proof.
  unfold str_of_int.
  destruct (Z.to_int n) as [d|d]; cbn [NilZero.string_of_int].
  - unfold NilZero.string_of_uint.
    destruct d; try (split; [apply lit_uint_no_quote | discriminate]).
    split; [|discriminate].
    unfold dquote. simpl. intros [H|[]]. discriminate.
  - change (lit (String "-" (NilZero.string_of_uint d)))
      with (45 :: lit (NilZero.string_of_uint d)).
    split; [|discriminate].
    intros [H|H]; [discriminate|]. revert H.
    unfold NilZero.string_of_uint.
    destruct d; try apply lit_uint_no_quote.
    unfold dquote. simpl. intros [H|[]]. discriminate.
Qed.

Lemma format_status_no_quote (s : status_value) :
  written_status s ->
  ~ In dquote (format_status s) /\ format_status s <> [].
Proof.
  destruct s as [n|m]; simpl.
  - intros _. apply str_of_int_no_quote.
  - unfold dquote.
    intros [->| ->]; (split; [|discriminate]);
      simpl; intuition discriminate.
Qed.

Lemma no_quote_ahead_app (s rest : str) :
  ~ In dquote s -> s <> [] -> no_quote_ahead (s ++ rest).
Proof.
  destruct s as [|c s]; [congruence|].
  intros H _. simpl. apply N.eqb_neq. intros ->. apply H. now left.
Qed.

Lemma at_end_comma (s : str) : Csv.at_end (comma :: s) = false.
Proof. destruct s as [|c [|d s]]; reflexivity. Qed.

Lemma fields_quoted_comma (fuel : nat) (s f rest : str) :
  Csv.quoted s = Some (f, comma :: rest) ->
  Csv.fields (S fuel) (dquote :: s) =
  match Csv.fields fuel rest with
  | Some fs => Some (f :: fs)
  | None => None
  end.
Proof.
  intros H. cbn [Csv.fields Csv.field]. rewrite N.eqb_refl, H.
  now rewrite at_end_comma, N.eqb_refl.
Qed.

Lemma fields_quoted_end (fuel : nat) (s f rest : str) :
  Csv.quoted s = Some (f, rest) -> Csv.at_end rest = true ->
  Csv.fields (S fuel) (dquote :: s) = Some [f].
Proof.
  intros H He. cbn [Csv.fields Csv.field]. now rewrite N.eqb_refl, H, He.
Qed.

(** The row of a URL and a status without quotes reads back as the three
    fields. *)
Lemma fields_csv_row (u st t : str) (k : nat) :
  ~ In dquote u -> ~ In dquote st ->
  Csv.fields (S (S (S k)))
    (dquote :: u ++ dquote :: comma :: dquote :: st
            ++ dquote :: comma :: dquote
            :: replace1 dquote [dquote; dquote] t ++ [dquote; 10]) =
  Some [u; st; t].
Proof.
  intros Hu Hs.
  erewrite fields_quoted_comma;
    [|apply (quoted_plain u (comma :: _) Hu); reflexivity].
  erewrite fields_quoted_comma;
    [|apply (quoted_plain st (comma :: _) Hs); reflexivity].
  erewrite fields_quoted_end;
    [reflexivity | apply (quoted_escaped t [10]); reflexivity | reflexivity].
Qed.

Lemma fields_head (fuel : nat) (s : str) (f0 : str) (fs : list str) :
  Csv.fields fuel s = Some (f0 :: fs) ->
  exists rest, Csv.field s = Some (f0, rest).
Proof.
  destruct fuel as [|fuel]; [discriminate|].
  cbn [Csv.fields].
  destruct (Csv.field s) as [[f rest]|]; [|discriminate].
  destruct (Csv.at_end rest).
  - intros H. injection H as -> _. eauto.
  - destruct rest as [|c rest]; [discriminate|].
    destruct (c =? comma); [|discriminate].
    destruct (Csv.fields fuel rest); [|discriminate].
    intros H. injection H as -> _. eauto.
Qed.

Lemma csv_row_shape (u : str) (status : status_value) (t : str) :
  csv_row u status t =
  dquote :: u ++ dquote :: comma :: dquote :: format_status status
         ++ dquote :: comma :: dquote
         :: replace1 dquote [dquote; dquote] t ++ [dquote; 10].
Proof. reflexivity. Qed.

(** C10, as the code has it: in a written row only the title has its
    double quotes doubled, the URL and the status stand verbatim between
    their quotes.  So the row reads back as the three fields URL, status
    and title exactly when the URL has no double quote; with one, the row
    is either rejected or read back with other fields (the status, a
    number or one of the two markers, never has a quote). *)
Theorem csv_row_reads_back (u : str) (status : status_value) (t : str) :
  written_status status ->
  (Csv.parse_row (csv_row u status t) = Some [u; format_status status; t]
   <-> ~ In dquote u).
Proof.
  intros Hw.
  destruct (format_status_no_quote status Hw) as [Hs Hne].
  unfold Csv.parse_row. rewrite csv_row_shape. split.
  - intros H Hin.
    apply fields_head in H as [rest H].
    cbn [Csv.field] in H. rewrite N.eqb_refl in H.
    apply (quoted_verbatim_differs (List.length u) u [] _ _ _
             (le_n _) (no_quote_ahead_app _ _ Hs Hne)
             (or_intror Hin) H).
    reflexivity.
  - intros Hu.
    cbn [List.length]. rewrite length_app. cbn [List.length].
    rewrite Nat.add_succ_r, Nat.add_succ_r.
    now apply fields_csv_row.
Qed.

Lemma csv_row_reads_back_witness :
  Csv.parse_row
    (csv_row (lit "https://example.com") (StatusInt 404)
       (lit "say " ++ [dquote] ++ lit "hi" ++ [dquote])) =
  Some [lit "https://example.com"; lit "404";
        lit "say " ++ [dquote] ++ lit "hi" ++ [dquote]].
Proof.
  apply (proj2 (csv_row_reads_back (lit "https://example.com")
                  (StatusInt 404)
                  (lit "say " ++ [dquote] ++ lit "hi" ++ [dquote]) I)).
  intros H. vm_compute in H. intuition discriminate.
Defined.

(** A URL with two double quotes in a row: the written row is well formed,
    and reads back with another URL. *)
Lemma csv_row_quote_counterexample :
  In dquote (lit "https://a" ++ [dquote; dquote] ++ lit "b") /\
  Csv.parse_row
    (csv_row (lit "https://a" ++ [dquote; dquote] ++ lit "b")
       (StatusInt 200) (lit "t")) =
  Some [lit "https://a" ++ [dquote] ++ lit "b"; lit "200"; lit "t"].
Proof.
  split.
  - apply in_or_app. right. now left.
  - vm_compute. reflexivity.
Qed.

(* ================================================================== *)
(** * Further properties *)

(** ** What [normalize_url] accepts and returns *)

Lemma strip_idempotent (s : str) : strip (strip s) = strip s.
Proof.
  pose proof (strip_unique [] (strip s) [] (Forall_nil _) (Forall_nil _)
                (strip_trimmed s)) as H.
  simpl in H. now rewrite app_nil_r in H.
Qed.

Lemma strip_of_trimmed (s : str) : trimmed s -> strip s = s.
Proof.
  intros H.
  pose proof (strip_unique [] s [] (Forall_nil _) (Forall_nil _) H) as E.
  simpl in E. now rewrite app_nil_r in E.
Qed.

Lemma strip_between_blanks (ws1 l ws2 : str) :
  blank ws1 -> blank ws2 -> strip (ws1 ++ l ++ ws2) = strip l.
Proof.
  intros B1 B2.
  destruct (strip_split l) as (a & b & Hl & Ba & Bb).
  rewrite Hl at 1.
  replace (ws1 ++ (a ++ strip l ++ b) ++ ws2)
    with ((ws1 ++ a) ++ strip l ++ (b ++ ws2))
    by now rewrite <- !app_assoc.
  apply strip_unique.
  - apply Forall_app. now split.
  - apply Forall_app. now split.
  - apply strip_trimmed.
Qed.

Lemma trimmed_https (s : str) :
  trimmed s -> s <> [] -> trimmed (https_scheme ++ s).
Proof.
  intros [_ Hl] Hne. split.
  - intros c s' H. injection H as <- _. reflexivity.
  - intros c s' H.
    destruct (exists_last Hne) as (s0 & d & ->).
    rewrite app_assoc in H. apply app_inj_tail in H as [_ <-].
    now apply (Hl d s0).
Qed.

Lemma has_scheme_https (s : str) : has_scheme (https_scheme ++ s) = true.
Proof.
  unfold has_scheme. apply orb_true_iff. right.
  apply startswith_spec. now exists s.
Qed.

Lemma re_match_domain_nonempty (s : str) :
  re_match_domain s = true -> s <> [].
Proof. intros H ->. discriminate. Qed.

Lemma normalize_url_cases (line u : str) :
  normalize_url line = Some u ->
  (has_scheme (strip line) = true /\ u = strip line) \/
  (has_scheme (strip line) = false /\ re_match_domain (strip line) = true /\
   u = https_scheme ++ strip line).
Proof.
  rewrite normalize_url_unfold.
  destruct (has_scheme (strip line)) eqn:Hs.
  - intros H. injection H as <-. now left.
  - destruct (re_match_domain (strip line)) eqn:Hm; [|discriminate].
    intros H. injection H as <-. now right.
Qed.

Lemma normalize_url_fixed (line u : str) :
  normalize_url line = Some u -> has_scheme u = true /\ strip u = u.
Proof.
  intros H. apply normalize_url_cases in H as [[Hs ->]|(Hs & Hm & ->)].
  - split; [exact Hs | apply strip_idempotent].
  - split; [apply has_scheme_https|].
    apply strip_of_trimmed, trimmed_https.
    + apply strip_trimmed.
    + now apply re_match_domain_nonempty.
Qed.

(** X1: whatever [normalize_url] returns starts with http:// or https://, is
    not empty and has no blank at either end. *)
Theorem normalize_url_returns_url (line u : str) :
  normalize_url line = Some u ->
  has_scheme u = true /\ u <> [] /\ trimmed u.
Proof.
  intros H. destruct (normalize_url_fixed line u H) as [Hs Ht].
  repeat split.
  - exact Hs.
  - intros ->. discriminate.
  - intros c s' E. rewrite <- Ht in E.
    apply (proj1 (strip_trimmed u) c s' E).
  - intros c s' E. rewrite <- Ht in E.
    apply (proj2 (strip_trimmed u) c s' E).
Qed.

Lemma normalize_url_returns_url_witness :
  has_scheme (lit "https://example.com") = true /\
  lit "https://example.com" <> [] /\
  trimmed (lit "https://example.com").
Proof.
  apply (normalize_url_returns_url ([9] ++ lit "example.com" ++ [13; 10])).
  reflexivity.
Defined.

(** X2: [normalize_url] is idempotent: a URL it returned is returned unchanged
    when it is normalised again. *)
Theorem normalize_url_idempotent (line u : str) :
  normalize_url line = Some u -> normalize_url u = Some u.
Proof.
  intros H. destruct (normalize_url_fixed line u H) as [Hs Ht].
  rewrite normalize_url_unfold, Ht. now rewrite Hs.
Qed.

Lemma normalize_url_idempotent_witness :
  normalize_url (lit "https://example.com") = Some (lit "https://example.com").
Proof.
  apply (normalize_url_idempotent (lit " example.com ")).
  reflexivity.
Defined.

(** X3: blanks around a line never change what [normalize_url] answers. *)
Theorem normalize_url_ignores_blanks (ws1 line ws2 : str) :
  blank ws1 -> blank ws2 ->
  normalize_url (ws1 ++ line ++ ws2) = normalize_url line.
Proof.
  intros B1 B2.
  rewrite (normalize_url_unfold (ws1 ++ line ++ ws2)),
    (normalize_url_unfold line).
  now rewrite (strip_between_blanks ws1 line ws2 B1 B2).
Qed.

Lemma normalize_url_ignores_blanks_witness :
  normalize_url ([32; 9] ++ lit "not a url" ++ [12288; 10]) =
  normalize_url (lit "not a url").
Proof.
  apply normalize_url_ignores_blanks; repeat constructor.
Defined.

Lemma re_domain_run_dot (s : str) : re_domain_run s = true -> In dot s.
Proof.
  intros H. apply re_domain_run_shape in H
    as (run & tld & rest & -> & _).
  apply in_or_app. right. now left.
Qed.

Lemma re_domain_run_digits (s : str) :
  Forall (fun c => is_digit c || (c =? dot) = true) s ->
  re_domain_run s = false.
Proof.
  intros H. destruct (re_domain_run s) eqn:E; [|reflexivity].
  apply re_domain_run_shape in E
    as (run & tld & rest & -> & _ & _ & Hlen & Htld).
  apply Forall_app in H as [_ H]. inversion H as [|? ? _ H']; subst.
  destruct tld as [|c tld]; [simpl in Hlen; lia|].
  inversion Htld as [|? ? Hc _]; subst.
  inversion H' as [|? ? Hd _]; subst.
  exfalso. revert Hc Hd.
  unfold is_alpha, is_upper, is_lower, is_digit, dot.
  rewrite !orb_true_iff, !andb_true_iff, !N.leb_le, N.eqb_eq. lia.
Qed.

Lemma Forall_strip (P : N -> Prop) (s : str) :
  Forall P s -> Forall P (strip s).
Proof.
  intros H. destruct (strip_split s) as (a & b & Hs & _).
  rewrite Hs in H. apply Forall_app in H as [_ H].
  now apply Forall_app in H as [H _].
Qed.

(** X4: shapes [normalize_url] rejects: a line without a scheme and without a
    dot (a bare host name), and a line made of digits and dots only (a
    bare IPv4 address), since the last label must be two letters. *)
Theorem normalize_url_rejects (line : str) :
  (has_scheme (strip line) = false -> ~ In dot line ->
   normalize_url line = None) /\
  (Forall (fun c => is_digit c || (c =? dot) = true) line ->
   normalize_url line = None).
Proof.
  split.
  - intros Hs Hd. rewrite normalize_url_unfold, Hs.
    destruct (re_match_domain (strip line)) eqn:Hm; [|reflexivity].
    exfalso. apply Hd. apply re_domain_run_dot in Hm.
    destruct (strip_split line) as (a & b & Hl & _). rewrite Hl.
    apply in_or_app. right. apply in_or_app. now left.
  - intros H. apply Forall_strip in H.
    rewrite normalize_url_unfold.
    unfold re_match_domain. rewrite (re_domain_run_digits _ H).
    destruct (has_scheme (strip line)) eqn:Hs; [|reflexivity].
    exfalso. unfold has_scheme in Hs. apply orb_true_iff in Hs.
    destruct Hs as [Hs|Hs]; apply startswith_spec in Hs as [post Hp];
      rewrite Hp in H; inversion H as [|? ? Hc _]; discriminate.
Qed.

Lemma normalize_url_rejects_witness :
  normalize_url (lit "localhost") = None /\
  normalize_url (lit "192.168.1.1") = None.
Proof.
  split.
  - apply (proj1 (normalize_url_rejects (lit "localhost"))).
    + reflexivity.
    + intros H. vm_compute in H. intuition discriminate.
  - apply (proj2 (normalize_url_rejects (lit "192.168.1.1"))).
    repeat constructor.
Defined.

(** ** The title shown on the console *)

(** X5: the title printed for a URL is the title itself when it has at most
    100 characters; otherwise it is its first 100 characters followed by
    three dots, 103 characters in all.  Its first 100 characters are
    always those of the title. *)
Theorem title_display_spec (t : str) :
  ((List.length t <= 100)%nat -> title_display t = t) /\
  ((100 < List.length t)%nat ->
   title_display t = firstn 100 t ++ lit "..." /\
   List.length (title_display t) = 103%nat) /\
  (List.length (title_display t) <= 103)%nat /\
  firstn 100 (title_display t) = firstn 100 t.
Proof.
  unfold title_display.
  destruct (100 <? List.length t)%nat eqn:E.
  - apply Nat.ltb_lt in E.
    assert (Hl : List.length (firstn 100 t) = 100%nat)
      by (rewrite length_firstn; lia).
    repeat split; try lia.
    + rewrite length_app, Hl. reflexivity.
    + rewrite length_app, Hl. simpl. lia.
    + rewrite firstn_app, Hl, Nat.sub_diag, firstn_O, app_nil_r.
      now rewrite firstn_firstn, Nat.min_id.
  - apply Nat.ltb_ge in E. repeat split; try lia; trivial.
Qed.

Lemma title_display_spec_witness :
  title_display (lit "Example Domain") = lit "Example Domain".
Proof.
  apply (proj1 (title_display_spec (lit "Example Domain"))).
  simpl. lia.
Defined.

(** ** Runs and what they leave in the trace *)

Lemma gets_app (a b : trace) : gets (a ++ b) = gets a ++ gets b.
Proof. apply flat_map_app. Qed.

Lemma writes_app (a b : trace) : writes (a ++ b) = writes a ++ writes b.
Proof. apply flat_map_app. Qed.

Lemma prints_app (a b : trace) : prints (a ++ b) = prints a ++ prints b.
Proof. apply flat_map_app. Qed.

Lemma sleeps_app (a b : trace) : sleeps (a ++ b) = (sleeps a + sleeps b)%nat.
Proof. unfold sleeps. now rewrite filter_app, length_app. Qed.

Lemma prints_map_print (ms : list console_msg) :
  prints (List.map EvPrint ms) = ms /\
  gets (List.map EvPrint ms) = [] /\
  writes (List.map EvPrint ms) = [] /\
  sleeps (List.map EvPrint ms) = 0%nat.
Proof.
  induction ms as [|m ms (IH1 & IH2 & IH3 & IH4)]; [now repeat split|].
  repeat split; simpl; trivial. now rewrite IH1.
Qed.

Lemma runs_ret {A} (a : A) (P : trace -> A -> Prop) :
  P [] a -> runs (ret a) P.
Proof.
  intros H t. exists [], a. unfold ret. rewrite app_nil_r. now split.
Qed.

Lemma runs_emit (ev : event) : runs (emit ev) (fun evs _ => evs = [ev]).
Proof. intros t. exists [ev], tt. now split. Qed.

Lemma runs_bind {A B} (m : M A) (k : A -> M B) (P : trace -> A -> Prop)
    (R : trace -> B -> Prop) :
  runs m P ->
  (forall a evs1, P evs1 a ->
                  runs (k a) (fun evs2 b => R (evs1 ++ evs2) b)) ->
  runs (bind m k) R.
Proof.
  intros Hm Hk t. unfold bind.
  destruct (Hm t) as (evs1 & a & E & Pa). rewrite E.
  destruct (Hk a evs1 Pa (t ++ evs1)) as (evs2 & b & E2 & Rb).
  exists (evs1 ++ evs2), b. split; [|exact Rb].
  now rewrite app_assoc.
Qed.

Lemma runs_weaken {A} (m : M A) (P Q : trace -> A -> Prop) :
  runs m P -> (forall evs a, P evs a -> Q evs a) -> runs m Q.
Proof.
  intros Hm HPQ t. destruct (Hm t) as (evs & a & E & Pa).
  exists evs, a. split; auto.
Qed.

Ltac run_emit :=
  eapply runs_bind; [first [apply runs_emit | apply runs_ret; reflexivity]|];
  intros ? ? ->.

Ltac observe :=
  repeat rewrite ?gets_app, ?writes_app, ?prints_app, ?sleeps_app;
  cbn [gets writes prints sleeps flat_map filter List.length app Nat.add].

(** ** The lines kept and the lines reported *)


Lemma collect_valid_runs (urls : list str) :
  forall i,
    runs (collect_valid i urls)
      (fun evs valid =>
         valid = flat_map kept (numbered i urls) /\
         evs = List.map EvPrint (flat_map rejected (numbered i urls))).
Proof.
  induction urls as [|l urls IH]; intros i.
  - apply runs_ret. now split.
  - cbn [collect_valid numbered flat_map].
    unfold kept at 1, rejected at 1. cbn [fst snd].
    destruct (normalize_url l) as [u|] eqn:Hn.
    + rewrite (normalize_url_truthy l u Hn).
      eapply runs_bind; [apply IH|].
      intros valid evs1 [-> ->]. apply runs_ret.
      split; [reflexivity | now rewrite app_nil_r].
    + run_emit.
      eapply runs_weaken; [apply IH|].
      intros evs valid [-> ->]. now split.
Qed.




(* ================================================================== *)
(** * The retrying session *)

Section AdapterProperties.

Variable max_retry_error : str -> str -> str.

Lemma is_exhausted_false (total : Z) :
  is_exhausted (total - 1) = false -> (1 <= total)%Z.
Proof. unfold is_exhausted. intros H. apply Z.ltb_ge in H. lia. Qed.


(** One turn of the loop. *)
Lemma urlopen_step (server : nat -> attempt) (fuel : nat) (u : str)
    (total : Z) (k : nat) :
  urlopen max_retry_error server (S fuel) u total k =
  if retried total (server k) then
    if is_exhausted (total - 1)
    then Some (inl (gave_up max_retry_error u (server k)))
    else urlopen max_retry_error server fuel u (total - 1) (S k)
  else
    match heard (server k) with
    | inl (response, _, body_error) => Some (inr (response, body_error))
    | inr _ => None
    end.
Proof.
  cbn [urlopen]. unfold retried.
  destruct (heard (server k)) as [[[response ra] body]|reason];
    [|reflexivity].
  now destruct (is_retry total (resp_status_code response) ra).
Qed.

(** The loop ends by its counter: with more fuel than the counter, it
    gives an outcome, and the same one whatever the fuel. *)
Lemma urlopen_total (server : nat -> attempt) (u : str) (fuel : nat) :
  forall total k,
    (Z.to_nat total < fuel)%nat ->
    exists outcome, urlopen max_retry_error server fuel u total k = Some outcome.
Proof.
  induction fuel as [|fuel IH]; intros total k Hf; [lia|].
  rewrite urlopen_step. unfold retried.
  destruct (heard (server k)) as [[[response ra] body]|reason].
  - destruct (is_retry total (resp_status_code response) ra); [|eauto].
    destruct (is_exhausted (total - 1)) eqn:He; [eauto|].
    apply IH. apply is_exhausted_false in He. lia.
  - destruct (is_exhausted (total - 1)) eqn:He; [eauto|].
    apply IH. apply is_exhausted_false in He. lia.
Qed.

Lemma urlopen_more_fuel (server : nat -> attempt) (u : str) (fuel : nat) :
  forall fuel' total k,
    (Z.to_nat total < fuel)%nat -> (Z.to_nat total < fuel')%nat ->
    urlopen max_retry_error server fuel u total k =
    urlopen max_retry_error server fuel' u total k.
Proof.
  induction fuel as [|fuel IH]; intros fuel' total k Hf Hf'; [lia|].
  destruct fuel' as [|fuel']; [lia|].
  rewrite !urlopen_step.
  destruct (retried total (server k)); [|reflexivity].
  destruct (is_exhausted (total - 1)) eqn:He; [reflexivity|].
  apply is_exhausted_false in He. apply IH; lia.
Qed.

Lemma urlopen_agree (s1 s2 : nat -> attempt) (u : str) (fuel : nat) :
  forall total k,
    (forall j, (j <= Z.to_nat total)%nat -> s1 (k + j)%nat = s2 (k + j)%nat) ->
    urlopen max_retry_error s1 fuel u total k =
    urlopen max_retry_error s2 fuel u total k.
Proof.
  induction fuel as [|fuel IH]; intros total k H; [reflexivity|].
  rewrite !urlopen_step.
  pose proof (H 0%nat ltac:(lia)) as H0. rewrite Nat.add_0_r in H0.
  rewrite <- H0.
  destruct (retried total (s1 k)); [|reflexivity].
  destruct (is_exhausted (total - 1)) eqn:He; [reflexivity|].
  apply is_exhausted_false in He. apply IH.
  intros j Hj. replace (S k + j)%nat with (k + S j)%nat by lia.
  apply H. lia.
Qed.



Lemma gave_up_request_exception (u : str) (a : attempt) :
  isinstance_RequestException (gave_up max_retry_error u a) = true.
Proof.
  unfold gave_up. now destruct (heard a) as [[[response ra] body]|reason].
Qed.

Lemma urlopen_raises_request_exception (server : nat -> attempt) (u : str)
    (fuel : nat) :
  forall total k e,
    urlopen max_retry_error server fuel u total k = Some (inl e) ->
    isinstance_RequestException e = true.
Proof.
  induction fuel as [|fuel IH]; intros total k e; [discriminate|].
  rewrite urlopen_step.
  destruct (retried total (server k)).
  - destruct (is_exhausted (total - 1)); [|apply IH].
    intros H. injection H as <-. apply gave_up_request_exception.
  - destruct (heard (server k)) as [[[response ra] body]|reason];
      discriminate.
Qed.

(** A response leaves the loop only if it is not retried: its status is
    outside the force list, and it is what some attempt met. *)
Lemma urlopen_response_not_forced (server : nat -> attempt) (u : str)
    (fuel : nat) :
  forall total k response body,
    urlopen max_retry_error server fuel u total k =
    Some (inr (response, body)) ->
    mem_status (resp_status_code response) status_forcelist = false /\
    exists j ra, heard (server j) = inl (response, ra, body).
Proof.
  induction fuel as [|fuel IH]; intros total k response body;
    [discriminate|].
  rewrite urlopen_step. unfold retried.
  destruct (heard (server k)) as [[[r0 ra0] body0]|reason] eqn:Hs.
  - destruct (is_retry total (resp_status_code r0) ra0) eqn:Hr.
    + destruct (is_exhausted (total - 1)); [discriminate | apply IH].
    + intros H. injection H as <- <-. split; [|eauto].
      unfold is_retry in Hr. now apply orb_false_iff in Hr as [Hr _].
  - destruct (is_exhausted (total - 1)); [discriminate | apply IH].
Qed.

Lemma adapter_send_total_aux (server : nat -> attempt) (total : Z) (u : str) :
  exists outcome,
    urlopen max_retry_error server (S (Z.to_nat total)) u total 0 =
    Some outcome.
Proof. apply urlopen_total. lia. Qed.

(** X13: the loop makes at most [max(total, 0) + 1] attempts, and this
    bound comes from its counter, not from the fuel of the model: for
    every fuel, the outcome is the same on two servers that agree on
    these attempts, whatever they would answer later; and any fuel above
    the counter gives the outcome [adapter_send] gives. *)
Theorem urlopen_attempts_bounded (s1 s2 : nat -> attempt) (u : str)
    (fuel : nat) (total : Z) (k : nat) :
  ((forall j, (j <= Z.to_nat total)%nat -> s1 (k + j)%nat = s2 (k + j)%nat) ->
   urlopen max_retry_error s1 fuel u total k =
   urlopen max_retry_error s2 fuel u total k) /\
  ((Z.to_nat total < fuel)%nat ->
   urlopen max_retry_error s1 fuel u total 0 =
   adapter_send max_retry_error s1 total u /\
   exists outcome, adapter_send max_retry_error s1 total u = Some outcome).
Proof.
  split.
  - apply urlopen_agree.
  - intros Hf. split.
    + unfold adapter_send. apply urlopen_more_fuel; lia.
    + apply urlopen_total. lia.
Qed.

End AdapterProperties.

Section SessionProperties.

Variable max_retry_error : str -> str -> str.
Variable BeautifulSoup : bytes -> exn + PageElement.
Variable unicode_lower : str -> str.
Variable network : nat -> str -> nat -> attempt.

Local Abbreviation session_get' := (session_get_on max_retry_error network).
Local Abbreviation process_url' :=
  (process_url BeautifulSoup session_get' unicode_lower).
Local Abbreviation gave_up' := (gave_up max_retry_error).

Lemma session_get_on_raises (retries : Z) (n : nat) (u : str) (e : exn) :
  session_get' retries n u = inl e -> isinstance_RequestException e = true.
Proof.
  unfold session_get_on, adapter_send.
  destruct (adapter_send_total_aux max_retry_error (network n u) retries u)
    as [outcome E].
  rewrite E. destruct outcome as [e'|[response [reason|]]].
  - intros H. injection H as <-.
    apply (urlopen_raises_request_exception _ _ _ _ _ _ _ E).
  - unfold read_body. intros H. injection H as <-. reflexivity.
  - discriminate.
Qed.

Lemma session_get_on_response (retries : Z) (n : nat) (u : str)
    (response : Response) :
  session_get' retries n u = inr response ->
  mem_status (resp_status_code response) status_forcelist = false /\
  exists k ra, network n u k = Responded response ra.
Proof.
  unfold session_get_on, adapter_send.
  destruct (urlopen max_retry_error (network n u) (S (Z.to_nat retries))
              u retries 0) as [[e|[r body]]|] eqn:E; try discriminate.
  unfold read_body. cbn [fst snd].
  destruct body as [reason|]; [discriminate|].
  intros H. injection H as ->.
  apply urlopen_response_not_forced in E as [Hm (j & ra & Hj)].
  split; [exact Hm|]. exists j, ra.
  destruct (network n u j); cbn [heard] in Hj; try discriminate.
  now injection Hj as -> ->.
Qed.




Lemma process_url_on_exn (self : URLProcessor) (u : str) (t : trace)
    (e : exn) :
  session_get' (retries self) (count_gets t) u = inl e ->
  returned (process_url' self u) t =
  Some {| url := u;
          status_code := StatusStr REQUEST_FAILED;
          title := ERROR_PREFIX ++ exn_msg e;
          success := false |}.
Proof.
  intros H. unfold returned. rewrite process_url_run, H.
  apply session_get_on_raises in H.
  unfold record_of_exn. now rewrite H.
Qed.

Lemma process_url_on_response (self : URLProcessor) (u : str) (t : trace)
    (response : Response) :
  session_get' (retries self) (count_gets t) u = inr response ->
  returned (process_url' self u) t =
  Some (record_of_response BeautifulSoup unicode_lower u response).
Proof.
  intros H. unfold returned. now rewrite process_url_run, H.
Qed.




(** X15: no record carries a status of the force list: when [process_url]
    answers with [success = true], the status is a number other than 429,
    500, 502, 503 and 504, and it is the status of a response the server
    gave to one of the attempts. *)
Theorem record_status_not_forced (self : URLProcessor) (u : str) (t : trace)
    (r : ResultRecord) :
  returned (process_url' self u) t = Some r ->
  success r = true ->
  exists code,
    status_code r = StatusInt code /\
    mem_status code status_forcelist = false /\
    exists k response ra,
      network (count_gets t) u k = Responded response ra /\
      resp_status_code response = code.
Proof.
  destruct (session_get' (retries self) (count_gets t) u)
    as [e|response] eqn:Hg.
  - rewrite (process_url_on_exn self u t e Hg).
    intros H. injection H as <-. discriminate.
  - rewrite (process_url_on_response self u t response Hg).
    intros H _. injection H as <-.
    exists (resp_status_code response). split; [reflexivity|].
    destruct (session_get_on_response _ _ _ _ Hg) as [Hm (k & ra & Hk)].
    split; [exact Hm|]. now exists k, response, ra.
Qed.

End SessionProperties.





Lemma urlopen_attempts_bounded_witness :
  urlopen sample_max_retry_error overloaded_server 10
    (lit "https://example.com") 3%Z 0 =
  urlopen sample_max_retry_error
    (fun k => if (k <=? 3)%nat then overloaded_server k else flaky_server k)
    10 (lit "https://example.com") 3%Z 0.
Proof.
  apply (proj1 (urlopen_attempts_bounded sample_max_retry_error
                  overloaded_server
                  (fun k => if (k <=? 3)%nat
                            then overloaded_server k else flaky_server k)
                  (lit "https://example.com") 10 3%Z 0)).
  intros j Hj. change (Z.to_nat 3) with 3%nat in Hj.
  apply Nat.leb_le in Hj. cbn [Nat.add]. now rewrite Hj.
Defined.


Lemma record_status_not_forced_witness :
  exists code,
    StatusInt 200 = StatusInt code /\
    mem_status code status_forcelist = false /\
    exists k response ra,
      flaky_server k = Responded response ra /\
      resp_status_code response = code.
Proof.
  apply (record_status_not_forced (fun _ cause => cause)
           (fun _ => inr (page_with_title [])) (fun s => s)
           (fun _ _ => flaky_server) sample_processor
           (lit "https://example.com") []
           {| url := lit "https://example.com";
              status_code := StatusInt 200;
              title := NON_HTML ++ lit "text/plain";
              success := true |});
    reflexivity.
Defined.

(** ** Responses without a content type, pages that do not parse *)

Section ProcessUrlEdges.

Variable BeautifulSoup : bytes -> exn + PageElement.
Variable session_get : Z -> nat -> str -> exn + Response.
Variable unicode_lower : str -> str.

Local Abbreviation process_url' :=
  (process_url BeautifulSoup session_get unicode_lower).

(** X16: a response without a content-type header is handled as non-HTML: the
    extractor is not called, the title is the bare non-HTML prefix and the
    record is a success with the status of the response. *)
Theorem process_url_no_content_type (self : URLProcessor) (u : str)
    (t : trace) (response : Response) :
  session_get (retries self) (count_gets t) u = inr response ->
  resp_content_type response = None ->
  process_url' self u t =
  (t ++ [EvGet u],
   inr {| url := u;
          status_code := StatusInt (resp_status_code response);
          title := NON_HTML;
          success := true |}).
Proof.
  intros Hg Hc. rewrite process_url_run, Hg.
  unfold record_of_response, content_type_of. rewrite Hc.
  cbn. now rewrite app_nil_r.
Qed.

(** X17: a page that is announced as HTML and that the parser fails on still
    gives a success record: the status is that of the response and the
    title carries the message of the parser's exception. *)
Theorem process_url_parser_failure (self : URLProcessor) (u : str)
    (t : trace) (response : Response) (e : exn) :
  session_get (retries self) (count_gets t) u = inr response ->
  contains (lit "text/html") (content_type_of unicode_lower response) = true ->
  BeautifulSoup (resp_content response) = inl e ->
  returned (process_url' self u) t =
  Some {| url := u;
          status_code := StatusInt (resp_status_code response);
          title := TITLE_FAILED ++ exn_msg e;
          success := true |}.
Proof.
  intros Hg Hc He. unfold returned. rewrite process_url_run, Hg.
  unfold record_of_response, title_of. now rewrite Hc, He.
Qed.

End ProcessUrlEdges.

Lemma process_url_no_content_type_witness :
  process_url (fun _ => inr (page_with_title []))
    (fun _ _ _ => inr {| resp_status_code := 204;
                         resp_content_type := None;
                         resp_content := [] |})
    (fun s => s) sample_processor (lit "https://example.com") [] =
  ([EvGet (lit "https://example.com")],
   inr {| url := lit "https://example.com";
          status_code := StatusInt 204;
          title := NON_HTML;
          success := true |}).
Proof.
  apply (process_url_no_content_type (fun _ => inr (page_with_title []))
           (fun _ _ _ => inr {| resp_status_code := 204;
                                resp_content_type := None;
                                resp_content := [] |})
           (fun s => s) sample_processor (lit "https://example.com") []
           {| resp_status_code := 204;
              resp_content_type := None;
              resp_content := [] |});
    reflexivity.
Defined.

Lemma process_url_parser_failure_witness :
  returned
    (process_url (fun _ => inl (Exn Exception (lit "bad markup")))
       (fun _ _ _ => inr (sample_response 200 "text/html; charset=utf-8"))
       (fun s => s) sample_processor (lit "https://example.com")) [] =
  Some {| url := lit "https://example.com";
          status_code := StatusInt 200;
          title := TITLE_FAILED ++ lit "bad markup";
          success := true |}.
Proof.
  apply (process_url_parser_failure
           (fun _ => inl (Exn Exception (lit "bad markup")))
           (fun _ _ _ => inr (sample_response 200 "text/html; charset=utf-8"))
           (fun s => s) sample_processor (lit "https://example.com") []
           (sample_response 200 "text/html; charset=utf-8")
           (Exn Exception (lit "bad markup")));
    reflexivity.
Defined.


(* ================================================================== *)
(** * The batch and what can abort it *)











Section BatchOutcome.

Variable BeautifulSoup : bytes -> exn + PageElement.
Variable session_get : Z -> nat -> str -> exn + Response.
Variable unicode_lower : str -> str.
Variable fs : FileSystem.

Local Abbreviation process_url' :=
  (process_url BeautifulSoup session_get unicode_lower).
Local Abbreviation process_all' :=
  (process_all BeautifulSoup session_get unicode_lower fs).
Local Abbreviation process_file' :=
  (process_file BeautifulSoup session_get unicode_lower fs).
Local Abbreviation main' :=
  (main BeautifulSoup session_get unicode_lower fs).
Local Abbreviation exit_status' :=
  (exit_status BeautifulSoup session_get unicode_lower fs).











End BatchOutcome.

(* ================================================================== *)
(** * The batch when nothing fails *)

Section BatchRuns.

Variable BeautifulSoup : bytes -> exn + PageElement.
Variable session_get : Z -> nat -> str -> exn + Response.
Variable unicode_lower : str -> str.
Variable fs : FileSystem.

Local Abbreviation process_url' :=
  (process_url BeautifulSoup session_get unicode_lower).
Local Abbreviation process_all' :=
  (process_all BeautifulSoup session_get unicode_lower fs).
Local Abbreviation process_file' :=
  (process_file BeautifulSoup session_get unicode_lower fs).
Local Abbreviation main' :=
  (main BeautifulSoup session_get unicode_lower fs).
Local Abbreviation exit_status' :=
  (exit_status BeautifulSoup session_get unicode_lower fs).

Lemma process_url_runs (self : URLProcessor) (u : str) :
  runs (process_url' self u)
    (fun evs r =>
       url r = u /\ gets evs = [u] /\ writes evs = [] /\
       prints evs = [] /\ sleeps evs = 0%nat /\
       written_status (status_code r)).
Proof.
  intros t. rewrite process_url_run.
  destruct (session_get (retries self) (count_gets t) u) as [e|response].
  - exists [EvGet u], (record_of_exn u e). repeat split.
    cbn. destruct (isinstance_RequestException e); auto.
  - rewrite <- app_assoc.
    eexists _, _. split; [reflexivity|].
    destruct (contains (lit "text/html")
                (content_type_of unicode_lower response));
      now repeat split.
Qed.

Lemma print_title_runs (self : URLProcessor) (s : str) :
  io_reliable fs self ->
  runs (print_title fs s) (fun evs _ => evs = [EvPrint (MsgTitle s)]).
Proof.
  intros (Hc & _) t. unfold print_title. rewrite Hc. now exists [EvPrint (MsgTitle s)], tt.
Qed.

Lemma write_runs (self : URLProcessor) (d : str) :
  io_reliable fs self ->
  runs (write fs d) (fun evs _ => evs = [EvWrite d]).
Proof.
  intros (_ & Hw & _) t. unfold write. rewrite Hw. now exists [EvWrite d], tt.
Qed.

Lemma close_runs (self : URLProcessor) :
  io_reliable fs self ->
  runs (close fs) (fun evs _ => evs = [EvClose]).
Proof.
  intros (_ & _ & Hc & _) t. unfold close. rewrite Hc. now exists [EvClose], tt.
Qed.

Lemma pause_runs (self : URLProcessor) :
  io_reliable fs self ->
  runs (pause self)
    (fun evs _ =>
       gets evs = [] /\ prints evs = [] /\ writes evs = [] /\
       sleeps evs = if delay_positive self then 1%nat else 0%nat).
Proof.
  intros (_ & _ & _ & Hd). unfold pause.
  destruct (delay_positive self).
  - rewrite (Hd eq_refl).
    eapply runs_weaken; [apply runs_emit|].
    intros evs _ ->. now repeat split.
  - apply runs_ret. now repeat split.
Qed.

Lemma process_all_runs (self : URLProcessor) (output_fh : bool)
    (valid_urls : list (N * str)) :
  io_reliable fs self ->
  forall results,
    runs (process_all' self output_fh valid_urls results)
      (fun evs rs =>
         exists new,
           rs = results ++ new /\
           List.map url new = List.map snd valid_urls /\
           gets evs = List.map snd valid_urls /\
           writes evs = (if output_fh then List.map row_of new else []) /\
           sleeps evs = (if delay_positive self
                         then List.length valid_urls else 0%nat) /\
           prints evs =
           flat_map (fun p => report_block (fst p) (snd p))
             (combine valid_urls new) /\
           Forall (fun r => written_status (status_code r)) new).
Proof.
  intros Hio.
  induction valid_urls as [|[line_num u] rest IH]; intros results.
  - apply runs_ret. exists []. rewrite app_nil_r.
    repeat split; try constructor;
      now destruct output_fh, (delay_positive self).
  - cbn [process_all].
    run_emit.
    eapply runs_bind; [apply process_url_runs|].
    intros r evs1 (Hu & Hg & Hw & Hp & Hs & Hst).
    run_emit.
    eapply runs_bind; [apply (print_title_runs self _ Hio)|].
    intros ? ? ->.
    run_emit.
    eapply runs_bind with
      (P := fun evs _ =>
              gets evs = [] /\ prints evs = [] /\ sleeps evs = 0%nat /\
              writes evs = if output_fh then [row_of r] else []).
    { destruct output_fh.
      - eapply runs_weaken; [apply (write_runs self _ Hio)|].
        intros evs _ ->. unfold row_of. rewrite Hu. now repeat split.
      - apply runs_ret. now repeat split. }
    intros _ evs2 (Hg2 & Hp2 & Hs2 & Hw2).
    eapply runs_bind; [apply (pause_runs self Hio)|].
    intros _ evs3 (Hg3 & Hp3 & Hw3 & Hs3).
    eapply runs_weaken; [apply IH|].
    intros evs rs (new & -> & Hn & Hg4 & Hw4 & Hs4 & Hp4 & Hst4).
    exists (r :: new). observe.
    rewrite Hg, Hw, Hp, Hs, Hg2, Hp2, Hs2, Hw2, Hg3, Hp3, Hw3, Hs3,
      Hg4, Hw4, Hs4, Hp4.
    repeat split.
    + now rewrite <- app_assoc.
    + cbn [List.map snd]. now rewrite Hu, Hn.
    + destruct output_fh; reflexivity.
    + destruct (delay_positive self); simpl; lia.
    + now constructor.
Qed.

(** ** The whole file *)

Lemma read_urls_runs (file_path : str) (urls : list str) :
  file_lines fs file_path urls ->
  runs (read_urls fs file_path) (fun evs read => evs = [] /\ read = Some urls).
Proof.
  intros [H|(e & H1 & H2 & H3)] t;
    unfold read_urls, try_, bind, lift, ret; exists [], (Some urls);
    rewrite app_nil_r.
  - now rewrite H.
  - rewrite H1. cbn [dispatch]. now rewrite H2, H3.
Qed.

Lemma open_output_runs (self : URLProcessor) (output_file : option str) :
  io_reliable fs self ->
  runs (open_output fs output_file)
    (fun evs fh =>
       fh = output_opened fs output_file /\
       gets evs = [] /\ sleeps evs = 0%nat /\
       writes evs = (if fh then [CSV_HEADER] else []) /\
       prints evs = output_warning fs output_file).
Proof.
  intros (_ & Hw & _).
  destruct output_file as [[|c p]|]; try (apply runs_ret; now repeat split).
  intros t. unfold open_output, output_opened, output_warning,
    try_, bind, lift, write, emit, ret, print.
  destruct (fs_open_w fs (c :: p)) as [e|[]];
    cbn [dispatch isinstance_Exception].
  - eexists _, _. split; [reflexivity|]. now repeat split.
  - rewrite Hw. eexists _, _. split; [reflexivity|]. now repeat split.
Qed.

Lemma process_file_run (self : URLProcessor) (file_path : str)
    (output_file : option str) (urls : list str) :
  io_reliable fs self ->
  fs_exists fs file_path = true ->
  file_lines fs file_path urls ->
  kept_lines urls <> [] ->
  runs (process_file' self file_path output_file)
    (fun evs ok =>
       ok = true /\
       exists rs,
         List.map url rs = List.map snd (kept_lines urls) /\
         gets evs = List.map snd (kept_lines urls) /\
         writes evs = (if output_opened fs output_file
                       then CSV_HEADER :: List.map row_of rs else []) /\
         sleeps evs = (if delay_positive self
                       then List.length (kept_lines urls) else 0%nat) /\
         prints evs =
         rejected_lines urls
         ++ [MsgFound (List.length (kept_lines urls)); MsgRule]
         ++ output_warning fs output_file
         ++ flat_map (fun p => report_block (fst p) (snd p))
              (combine (kept_lines urls) rs)
         ++ output_saved fs output_file
         ++ [MsgDone (List.length (filter success rs)) (List.length rs)] /\
         Forall (fun r => written_status (status_code r)) rs).
Proof.
  intros Hio He Hl Hk. unfold process_file. rewrite He. cbn [negb].
  eapply runs_bind; [apply (read_urls_runs _ _ Hl)|].
  intros read evs0 [-> ->].
  eapply runs_bind; [apply collect_valid_runs|].
  intros valid evs1 [Hv ->]. fold (kept_lines urls) in Hv.
  fold (rejected_lines urls). subst valid.
  destruct (kept_lines urls) as [|v valid] eqn:Ek; [congruence|].
  run_emit. run_emit.
  eapply runs_bind; [apply (open_output_runs self _ Hio)|].
  intros fh evs2 (Hfh & Hg2 & Hs2 & Hw2 & Hp2).
  eapply runs_bind; [apply (process_all_runs self _ _ Hio)|].
  intros rs evs3 (new & -> & Hn & Hg3 & Hw3 & Hs3 & Hp3 & Hst3).
  rewrite app_nil_l.
  eapply runs_bind with
    (P := fun evs _ =>
            gets evs = [] /\ writes evs = [] /\ sleeps evs = 0%nat /\
            prints evs = output_saved fs output_file).
  { subst fh. unfold output_opened, output_saved.
    destruct output_file as [[|c p]|]; try (apply runs_ret; now repeat split).
    destruct (fs_open_w fs (c :: p)); [apply runs_ret; now repeat split|].
    eapply runs_bind; [apply (close_runs self Hio)|]. intros ? ? ->.
    eapply runs_weaken; [apply runs_emit|].
    intros evs _ ->. now repeat split. }
  intros _ evs4 (Hg4 & Hw4 & Hs4 & Hp4).
  run_emit. apply runs_ret. split; [reflexivity|].
  exists new. observe.
  destruct (prints_map_print (rejected_lines urls)) as (Q1 & Q2 & Q3 & Q4).
  rewrite Q1, Q2, Q3, Q4, Hg2, Hs2, Hw2, Hp2, Hg3, Hw3, Hs3, Hp3,
    Hg4, Hw4, Hs4, Hp4, <- Hfh.
  repeat split; trivial.
  - now rewrite !app_nil_r.
  - destruct fh; now rewrite !app_nil_r.
  - destruct (delay_positive self); simpl; lia.
Qed.


End BatchRuns.

Section BatchReport.

Variable BeautifulSoup : bytes -> exn + PageElement.
Variable session_get : Z -> nat -> str -> exn + Response.
Variable unicode_lower : str -> str.
Variable fs : FileSystem.

Local Abbreviation process_file' :=
  (process_file BeautifulSoup session_get unicode_lower fs).
Local Abbreviation main' :=
  (main BeautifulSoup session_get unicode_lower fs).
Local Abbreviation exit_status' :=
  (exit_status BeautifulSoup session_get unicode_lower fs).

(** X7: on a file that decodes and has a valid line, and as long as
    [print], [write], [close] and [time.sleep] raise nothing,
    [process_file] requests each kept URL once, in the order of the file,
    and nothing else; it pauses once per URL when the delay is positive
    and never otherwise; and it returns [True]. *)
Theorem process_file_requests (self : URLProcessor) (file_path : str)
    (output_file : option str) (urls : list str) :
  io_reliable fs self ->
  fs_exists fs file_path = true ->
  file_lines fs file_path urls ->
  kept_lines urls <> [] ->
  runs (process_file' self file_path output_file)
    (fun evs ok =>
       ok = true /\
       gets evs = List.map snd (kept_lines urls) /\
       sleeps evs = (if delay_positive self
                     then List.length (kept_lines urls) else 0%nat)).
Proof.
  intros Hio He Hl Hk.
  eapply runs_weaken; [apply (process_file_run _ _ _ _ _ _ _ _ Hio He Hl Hk)|].
  intros evs ok (-> & rs & _ & Hg & _ & Hs & _). now repeat split.
Qed.

(** X8: on such a file, and as long as [print], [write], [close] and
    [time.sleep] raise nothing, the data written is nothing at all when
    no output file was asked for or it could not be opened; otherwise it
    is the header followed by one row per kept URL, in the order of the
    file, each row being that of a record of that URL with its full
    title. *)
Theorem process_file_csv (self : URLProcessor) (file_path : str)
    (output_file : option str) (urls : list str) :
  io_reliable fs self ->
  fs_exists fs file_path = true ->
  file_lines fs file_path urls ->
  kept_lines urls <> [] ->
  runs (process_file' self file_path output_file)
    (fun evs _ =>
       exists rs,
         List.map url rs = List.map snd (kept_lines urls) /\
         writes evs = if output_opened fs output_file
                      then CSV_HEADER :: List.map row_of rs
                      else []).
Proof.
  intros Hio He Hl Hk.
  eapply runs_weaken; [apply (process_file_run _ _ _ _ _ _ _ _ Hio He Hl Hk)|].
  intros evs ok (_ & rs & Hu & _ & Hw & _). now exists rs.
Qed.

(** X9: on such a file, and as long as [print], [write], [close] and
    [time.sleep] raise nothing, the console shows, in this order: one
    warning per rejected line; the number of kept URLs and a rule; a warning if the
    output file could not be opened; for each kept URL its line number,
    its URL, the status and the title cut to 100 characters; the path of
    the output file if one was written; and the summary, whose total is
    the number of kept URLs and whose count of successes is at most that
    total. *)
Theorem process_file_console (self : URLProcessor) (file_path : str)
    (output_file : option str) (urls : list str) :
  io_reliable fs self ->
  fs_exists fs file_path = true ->
  file_lines fs file_path urls ->
  kept_lines urls <> [] ->
  runs (process_file' self file_path output_file)
    (fun evs _ =>
       exists rs ok total,
         List.map url rs = List.map snd (kept_lines urls) /\
         total = List.length (kept_lines urls) /\
         ok = List.length (filter success rs) /\
         (ok <= total)%nat /\
         prints evs =
         rejected_lines urls
         ++ [MsgFound total; MsgRule]
         ++ output_warning fs output_file
         ++ flat_map (fun p => report_block (fst p) (snd p))
              (combine (kept_lines urls) rs)
         ++ output_saved fs output_file
         ++ [MsgDone ok total]).
Proof.
  intros Hio He Hl Hk.
  eapply runs_weaken; [apply (process_file_run _ _ _ _ _ _ _ _ Hio He Hl Hk)|].
  intros evs b (_ & rs & Hu & _ & _ & _ & Hp & _).
  assert (Hlen : List.length rs = List.length (kept_lines urls)).
  { apply (f_equal (@List.length str)) in Hu.
    now rewrite !length_map in Hu. }
  exists rs, (List.length (filter success rs)), (List.length (kept_lines urls)).
  repeat split; trivial.
  - rewrite <- Hlen. apply filter_length_le.
  - now rewrite Hp, Hlen.
Qed.



(** X12: a failure to read the file that is not a decoding error is not
    caught: it propagates out of [process_file] and of [main] before
    anything is printed, the GBK attempt is not made, and the process ends
    with status 1. *)
Theorem read_error_propagates (args : Args) (e : exn) :
  fs_exists fs (arg_file args) = true ->
  fs_readlines fs utf_8 (arg_file args) = inl e ->
  isinstance_UnicodeDecodeError e = false ->
  (forall t, main' args t = (t, inl e)) /\
  exit_status' args = 1%Z.
Proof.
  intros He H1 H2.
  assert (Hm : forall t, main' args t = (t, inl e)).
  { intros t. unfold main, process_file, read_urls, try_, bind, lift.
    rewrite He, H1. cbn [negb dispatch]. now rewrite H2. }
  split; [exact Hm|].
  unfold exit_status. now rewrite Hm.
Qed.

End BatchReport.


(* ================================================================== *)
(** * The exit status *)

Section BatchExit.

Variable BeautifulSoup : bytes -> exn + PageElement.
Variable session_get : Z -> nat -> str -> exn + Response.
Variable unicode_lower : str -> str.
Variable fs : FileSystem.

Local Abbreviation main' :=
  (main BeautifulSoup session_get unicode_lower fs).
Local Abbreviation exit_status' :=
  (exit_status BeautifulSoup session_get unicode_lower fs).
Local Abbreviation file_lines' := (file_lines fs).



End BatchExit.



Lemma sample_io_reliable (lines : list str) :
  io_reliable (sample_fs lines) sample_processor.
Proof. repeat split. Qed.

Lemma process_file_requests_witness :
  exists evs,
    process_file (fun _ => inr (page_with_title [])) unreachable (fun s => s)
      (sample_fs [lit "not a url!!"; lit "example.com"])
      sample_processor (lit "urls.txt") None [] = ([] ++ evs, inr true) /\
    gets evs = [lit "https://example.com"] /\ sleeps evs = 1%nat.
Proof.
  destruct (process_file_requests (fun _ => inr (page_with_title []))
              unreachable (fun s => s)
              (sample_fs [lit "not a url!!"; lit "example.com"])
              sample_processor (lit "urls.txt") None
              [lit "not a url!!"; lit "example.com"]
              (sample_io_reliable _) eq_refl (or_introl eq_refl)
              ltac:(intros H; vm_compute in H; discriminate) [])
    as (evs & ok & E & -> & Hg & Hs).
  exists evs. split; [exact E|]. split.
  - rewrite Hg. reflexivity.
  - rewrite Hs. reflexivity.
Defined.

Lemma process_file_csv_witness :
  exists evs ok rs,
    process_file (fun _ => inr (page_with_title [])) unreachable (fun s => s)
      (sample_fs [lit "not a url!!"; lit "example.com"])
      sample_processor (lit "urls.txt") (Some (lit "out.csv")) [] =
    ([] ++ evs, inr ok) /\
    List.map url rs = [lit "https://example.com"] /\
    writes evs = CSV_HEADER :: List.map row_of rs.
Proof.
  destruct (process_file_csv (fun _ => inr (page_with_title []))
              unreachable (fun s => s)
              (sample_fs [lit "not a url!!"; lit "example.com"])
              sample_processor (lit "urls.txt") (Some (lit "out.csv"))
              [lit "not a url!!"; lit "example.com"]
              (sample_io_reliable _) eq_refl (or_introl eq_refl)
              ltac:(intros H; vm_compute in H; discriminate) [])
    as (evs & ok & E & rs & Hu & Hw).
  exists evs, ok, rs. split; [exact E|]. split.
  - rewrite Hu. reflexivity.
  - exact Hw.
Defined.

Lemma process_file_console_witness :
  exists evs ok rs,
    process_file (fun _ => inr (page_with_title [])) unreachable (fun s => s)
      (sample_fs [lit "not a url!!"; lit "example.com"])
      sample_processor (lit "urls.txt") None [] = ([] ++ evs, inr ok) /\
    prints evs =
    [MsgInvalidLine 1 (lit "not a url!!"); MsgFound 1; MsgRule]
    ++ flat_map (fun p => report_block (fst p) (snd p))
         (combine [(2, lit "https://example.com")] rs)
    ++ [MsgDone (List.length (filter success rs)) 1].
Proof.
  destruct (process_file_console (fun _ => inr (page_with_title []))
              unreachable (fun s => s)
              (sample_fs [lit "not a url!!"; lit "example.com"])
              sample_processor (lit "urls.txt") None
              [lit "not a url!!"; lit "example.com"]
              (sample_io_reliable _) eq_refl (or_introl eq_refl)
              ltac:(intros H; vm_compute in H; discriminate) [])
    as (evs & b & E & rs & ok & total & Hu & -> & -> & _ & Hp).
  exists evs, b, rs. split; [exact E|].
  rewrite Hp. reflexivity.
Defined.


Lemma read_error_propagates_witness :
  exit_status (fun _ => inr (page_with_title [])) unreachable (fun s => s)
    locked_fs sample_args = 1%Z.
Proof.
  apply (read_error_propagates (fun _ => inr (page_with_title []))
           unreachable (fun s => s) locked_fs sample_args
           (Exn Exception (lit "Permission denied")));
    reflexivity.
Defined.


(** ** Reading the output file back *)

Lemma row_reads_back (r : ResultRecord) :
  written_status (status_code r) ->
  ~ In dquote (url r) ->
  Csv.parse_row (row_of r) =
  Some [url r; format_status (status_code r); title r].
Proof.
  intros Hw Hu.
  destruct (format_status_no_quote (status_code r) Hw) as [Hs _].
  unfold row_of, Csv.parse_row. rewrite csv_row_shape.
  cbn [List.length]. rewrite length_app. cbn [List.length].
  rewrite Nat.add_succ_r, Nat.add_succ_r.
  now apply fields_csv_row.
Qed.

Section OutputFile.

Variable BeautifulSoup : bytes -> exn + PageElement.
Variable session_get : Z -> nat -> str -> exn + Response.
Variable unicode_lower : str -> str.
Variable fs : FileSystem.

(** X10: the row built from any record [process_url] returns for a URL
    without a double quote is a well-formed CSV row whose three fields
    are the URL, the status as it is printed and the whole title,
    whatever the title contains (quotes, commas, line breaks) and
    whatever the fetch gave.  So, on a file that decodes and has a valid
    line, with an output file that opens, and as long as [print],
    [write], [close] and [time.sleep] raise nothing, what is written is
    the header followed by rows that all read back in this way. *)
Theorem process_file_rows_read_back (self : URLProcessor) (file_path : str)
    (output_file : option str) (urls : list str) :
  (forall u t r,
      returned (process_url BeautifulSoup session_get unicode_lower self u) t
      = Some r ->
      ~ In dquote u ->
      Csv.parse_row (csv_row u (status_code r) (title r)) =
      Some [u; format_status (status_code r); title r]) /\
  (io_reliable fs self ->
   fs_exists fs file_path = true ->
   file_lines fs file_path urls ->
   kept_lines urls <> [] ->
   output_opened fs output_file = true ->
   runs (process_file BeautifulSoup session_get unicode_lower fs
           self file_path output_file)
     (fun evs _ =>
        exists rs,
          List.map url rs = List.map snd (kept_lines urls) /\
          writes evs = CSV_HEADER :: List.map row_of rs /\
          Forall (fun r =>
                    ~ In dquote (url r) ->
                    Csv.parse_row (row_of r) =
                    Some [url r; format_status (status_code r); title r])
            rs)).
Proof.
  split.
  - intros u t r Hr Hq.
    destruct (process_url_runs BeautifulSoup session_get unicode_lower
                self u t) as (evs & r' & E & Hu & _ & _ & _ & _ & Hst).
    unfold returned in Hr. rewrite E in Hr. injection Hr as ->.
    subst u. now apply (row_reads_back r).
  - intros Hio He Hl Hk Ho.
    eapply runs_weaken;
      [apply (process_file_run _ _ _ _ _ _ _ _ Hio He Hl Hk)|].
    intros evs ok (_ & rs & Hu & _ & Hw & _ & _ & Hst).
    rewrite Ho in Hw. exists rs. repeat split; trivial.
    eapply Forall_impl; [|exact Hst].
    intros r Hr Hq. now apply row_reads_back.
Qed.

End OutputFile.

Lemma process_file_rows_read_back_witness :
  exists evs ok rs,
    process_file (fun _ => inr (page_with_title [])) unreachable (fun s => s)
      (sample_fs [lit "not a url!!"; lit "example.com"])
      sample_processor (lit "urls.txt") (Some (lit "out.csv")) [] =
    ([] ++ evs, inr ok) /\
    writes evs = CSV_HEADER :: List.map row_of rs /\
    Forall (fun r =>
              ~ In dquote (url r) ->
              Csv.parse_row (row_of r) =
              Some [url r; format_status (status_code r); title r]) rs.
Proof.
  destruct (proj2 (process_file_rows_read_back
                     (fun _ => inr (page_with_title []))
                     unreachable (fun s => s)
                     (sample_fs [lit "not a url!!"; lit "example.com"])
                     sample_processor (lit "urls.txt") (Some (lit "out.csv"))
                     [lit "not a url!!"; lit "example.com"])
              (sample_io_reliable _) eq_refl (or_introl eq_refl)
              ltac:(intros H; vm_compute in H; discriminate) eq_refl [])
    as (evs & ok & E & rs & _ & Hw & Hf).
  exists evs, ok, rs. now repeat split.
Defined.
